(** * Asteroid field: a shallow embedding of [src/main.js]

    The program is one script: it builds a three.js scene (lights, fifty
    asteroids, a star cloud), asks a [GLTFLoader] for the spaceship model,
    runs [animate] once and then reacts to events: animation frames, key
    presses, clicks, window resizes and the completion of the model load.

    JavaScript numbers are IEEE-754 binary64 values; they are modelled by
    Rocq's primitive floats, whose operations are the same binary64
    operations (round to nearest, ties to even).  Objects that the script
    shares by reference (the shader materials) live in an explicit store.
    The three.js calls the script makes ([Object3D.traverse],
    [ShaderMaterial.clone], [Color.copy], [Scene.add], [Camera.lookAt])
    are modelled by what the script observes of them. *)

From Stdlib Require Import Floats ZArith Lia Strings.String.
From stdpp Require Import base numbers option list.

Set Warnings "-inexact-float".

(** ** Binary64 numbers *)

(** [Number] is the type of JavaScript numbers. *)
Abbreviation Number := float.

Module Vector3.
Record t := mk { x : Number; y : Number; z : Number }.

(** [new THREE.Vector3()] and [v.set(a, b, c)]. *)
Definition zero : t := mk 0 0 0.
Definition set (a b c : Number) (_ : t) : t := mk a b c.

Definition with_x (a : Number) (v : t) : t := mk a (y v) (z v).
Definition with_y (b : Number) (v : t) : t := mk (x v) b (z v).
Definition with_z (c : Number) (v : t) : t := mk (x v) (y v) c.
End Vector3.

(** ** Colours and shader materials *)

(** A [THREE.Color] is identified by the hexadecimal triplet it was built
    from; [Color.copy] copies the channels, that is, the value. *)
Module Color.
Record t := mk { getHex : Z }.
End Color.

(** The uniforms and dirty flags of a [THREE.ShaderMaterial] built from the
    script's vertex and fragment shaders.  The shader sources are constant
    text and are not part of the state. *)
Module ShaderMaterial.
Record t := mk {
  time : Number;
  color : Color.t;
  needsUpdate : bool;
  uniformsNeedUpdate : bool
}.

(** [m.clone()]: a new material object with its own copy of the uniforms
    ([THREE.UniformsUtils.clone] copies numbers and clones colours); the
    dirty flags are those of a new material. *)
Definition clone (m : t) : t := mk (time m) (color m) false false.

Definition with_time (v : Number) (m : t) : t :=
  mk v (color m) (needsUpdate m) (uniformsNeedUpdate m).
Definition with_color (c : Color.t) (m : t) : t :=
  mk (time m) c (needsUpdate m) (uniformsNeedUpdate m).
Definition with_needsUpdate (b : bool) (m : t) : t :=
  mk (time m) (color m) b (uniformsNeedUpdate m).
Definition with_uniformsNeedUpdate (b : bool) (m : t) : t :=
  mk (time m) (color m) (needsUpdate m) b.
End ShaderMaterial.

(** The store of shader material objects.  An address is an index in the
    list; [spaceshipShaderMaterial], created first, is at address 0. *)
Abbreviation Store := (list ShaderMaterial.t).
Definition spaceshipShaderMaterial : nat := 0.

(** What a [material] field points to. *)
Inductive MaterialRef :=
  | otherMaterial
      (** no material (a group), or a material that is not a
          [ShaderMaterial]: [asteroidMaterial], [particlesMaterial], or one
          built by the GLTF parser *)
  | shaderMaterialAt (a : nat)
      (** the [ShaderMaterial] object at address [a] of the store *).

#[global] Instance MaterialRef_eq_dec : EqDecision MaterialRef.
Proof. solve_decision. Defined.

(** ** Scene-graph objects *)

(** The own fields of a [THREE.Object3D] that the script reads or writes. *)
Module Object3D.
Record t := mk {
  isMesh : bool;
  material : MaterialRef;
  position : Vector3.t;
  rotation : Vector3.t;   (* Euler angles *)
  scale : Vector3.t
}.

Definition with_material (m : MaterialRef) (o : t) : t :=
  mk (isMesh o) m (position o) (rotation o) (scale o).
Definition with_position (p : Vector3.t) (o : t) : t :=
  mk (isMesh o) (material o) p (rotation o) (scale o).
Definition with_rotation (r : Vector3.t) (o : t) : t :=
  mk (isMesh o) (material o) (position o) r (scale o).
Definition with_scale (k : Vector3.t) (o : t) : t :=
  mk (isMesh o) (material o) (position o) (rotation o) k.

(** [new THREE.Mesh(geometry, material)], [new THREE.Points(...)] and
    [new THREE.Group()]. *)
Definition Mesh (m : MaterialRef) : t :=
  mk true m Vector3.zero Vector3.zero (Vector3.mk 1 1 1).
Definition Points (m : MaterialRef) : t :=
  mk false m Vector3.zero Vector3.zero (Vector3.mk 1 1 1).
Definition Group : t :=
  mk false otherMaterial Vector3.zero Vector3.zero (Vector3.mk 1 1 1).
End Object3D.

(** An object together with its [children]. *)
#[warnings="-register-all"]
Inductive Node := node (self : Object3D.t) (children : list Node).

Definition self_of (n : Node) : Object3D.t := let 'node o _ := n in o.
Definition children_of (n : Node) : list Node := let 'node _ cs := n in cs.

(** [o.traverse(callback)]: the callback is applied to the object, then
    to its descendants, children in order.  The callback may update the
    object it is given and the material store. *)
Fixpoint traverse (callback : Object3D.t → Store → Object3D.t * Store)
    (n : Node) (σ : Store) : Node * Store :=
  let 'node o cs := n in
  let '(o', σ1) := callback o σ in
  let '(cs', σ2) :=
    (fix each (cs : list Node) (σ : Store) : list Node * Store :=
       match cs with
       | [] => ([], σ)
       | c :: cs =>
           let '(c', σ') := traverse callback c σ in
           let '(cs', σ'') := each cs σ' in
           (c' :: cs', σ'')
       end) cs σ1 in
  (node o' cs', σ2).

(** ** The camera *)

Module Camera.
Record t := mk {
  position : Vector3.t;
  aspect : Number;
  (** the eye and target of the last [lookAt] call, if any *)
  lookAt : option (Vector3.t * Vector3.t)
}.

Definition with_position (p : Vector3.t) (c : t) : t :=
  mk p (aspect c) (lookAt c).
Definition with_aspect (a : Number) (c : t) : t :=
  mk (position c) a (lookAt c).
Definition with_lookAt (target : Vector3.t) (c : t) : t :=
  mk (position c) (aspect c) (Some (position c, target)).
End Camera.

(** ** Program state *)

(** The objects added to [scene], by name: the scene holds references. *)
Inductive SceneObject :=
  | ambientLight | directionalLight | pointLight
  | asteroidAt (i : nat) | starsObject | spaceshipObject.

Inductive ConsoleEntry :=
  | console_log (message : string) (argument : option Color.t)
  | console_error (message : string) (error : string).

Record State := mkState {
  materials : Store;
  asteroids : list Object3D.t;
  stars : Object3D.t;
  spaceship : option Node;               (* [let spaceship;] is undefined until the load succeeds *)
  camera : Camera.t;
  currentColorIndex : nat;
  scene : list SceneObject;
  console : list ConsoleEntry;
  rendererSize : Number * Number;
  frames : nat;                          (* calls of [renderer.render] so far *)
  loading : bool                         (* the request of [loader.load] has not completed *)
}.

Definition with_materials (v : Store) (s : State) : State :=
  mkState v (asteroids s) (stars s) (spaceship s) (camera s) (currentColorIndex s)
    (scene s) (console s) (rendererSize s) (frames s) (loading s).
Definition with_asteroids (v : list Object3D.t) (s : State) : State :=
  mkState (materials s) v (stars s) (spaceship s) (camera s) (currentColorIndex s)
    (scene s) (console s) (rendererSize s) (frames s) (loading s).
Definition with_stars (v : Object3D.t) (s : State) : State :=
  mkState (materials s) (asteroids s) v (spaceship s) (camera s) (currentColorIndex s)
    (scene s) (console s) (rendererSize s) (frames s) (loading s).
Definition with_spaceship (v : option Node) (s : State) : State :=
  mkState (materials s) (asteroids s) (stars s) v (camera s) (currentColorIndex s)
    (scene s) (console s) (rendererSize s) (frames s) (loading s).
Definition with_camera (v : Camera.t) (s : State) : State :=
  mkState (materials s) (asteroids s) (stars s) (spaceship s) v (currentColorIndex s)
    (scene s) (console s) (rendererSize s) (frames s) (loading s).
Definition with_currentColorIndex (v : nat) (s : State) : State :=
  mkState (materials s) (asteroids s) (stars s) (spaceship s) (camera s) v
    (scene s) (console s) (rendererSize s) (frames s) (loading s).
Definition with_scene (v : list SceneObject) (s : State) : State :=
  mkState (materials s) (asteroids s) (stars s) (spaceship s) (camera s) (currentColorIndex s)
    v (console s) (rendererSize s) (frames s) (loading s).
Definition with_console (v : list ConsoleEntry) (s : State) : State :=
  mkState (materials s) (asteroids s) (stars s) (spaceship s) (camera s) (currentColorIndex s)
    (scene s) v (rendererSize s) (frames s) (loading s).
Definition with_rendererSize (v : Number * Number) (s : State) : State :=
  mkState (materials s) (asteroids s) (stars s) (spaceship s) (camera s) (currentColorIndex s)
    (scene s) (console s) v (frames s) (loading s).
Definition with_frames (v : nat) (s : State) : State :=
  mkState (materials s) (asteroids s) (stars s) (spaceship s) (camera s) (currentColorIndex s)
    (scene s) (console s) (rendererSize s) v (loading s).
Definition with_loading (v : bool) (s : State) : State :=
  mkState (materials s) (asteroids s) (stars s) (spaceship s) (camera s) (currentColorIndex s)
    (scene s) (console s) (rendererSize s) (frames s) v.

(** ** Start-up (lines 32-147) *)

(** What the script reads from its host while it sets the scene up: the
    window size and the successive results of [Math.random()]. *)
Record Host := mkHost {
  innerWidth : Number;
  innerHeight : Number;
  random : nat → Number
}.

(** The [i]-th asteroid: a mesh placed at three fresh random coordinates,
    each [Math.random() * 50 - 25]. *)
Definition newAsteroid (h : Host) (i : nat) : Object3D.t :=
  Object3D.with_position
    (Vector3.mk (random h (3 * i) * 50 - 25)
                (random h (3 * i + 1) * 50 - 25)
                (random h (3 * i + 2) * 50 - 25))
    (Object3D.Mesh otherMaterial).

(** The state when [animate()] is first called (line 179): camera at
    z = 10, three lights, fifty asteroids and the stars in the scene, the
    shader material with [time = 1.0] and the silver [color], the model
    request under way.  The 45000 star coordinates are written once and
    never read by the script; they are left out. *)
Definition initial (h : Host) : State := {|
  materials := [ShaderMaterial.mk 1.0 (Color.mk 0xc0c0c0) false false];
  asteroids := newAsteroid h <$> seq 0 50;
  stars := Object3D.Points otherMaterial;
  spaceship := None;
  camera := Camera.mk (Vector3.mk 0 0 10) (innerWidth h / innerHeight h) None;
  currentColorIndex := 0;
  scene := [ambientLight; directionalLight; pointLight]
             ++ (asteroidAt <$> seq 0 50) ++ [starsObject];
  console := [];
  rendererSize := (innerWidth h, innerHeight h);
  frames := 0;
  loading := true
|}.

(** ** The animation loop (lines 149-178) *)

Definition asteroidSpeed : Number := 0.1.

(** The body of [asteroids.forEach]. *)
Definition moveAsteroid (asteroid : Object3D.t) : Object3D.t :=
  let r := Object3D.rotation asteroid in
  let r := Vector3.with_x (Vector3.x r + 0.01) r in
  let r := Vector3.with_y (Vector3.y r + 0.01) r in
  let p := Object3D.position asteroid in
  let p := Vector3.with_z (Vector3.z p + asteroidSpeed) p in
  let p := if (10 <? Vector3.z p)%float then Vector3.with_z (-50) p else p in
  Object3D.with_position p (Object3D.with_rotation r asteroid).

(** [spaceshipShaderMaterial.uniforms.time.value += 0.05].  The material
    is in the store from the start ([wellFormed] below), so that the
    second branch is never taken. *)
Definition advanceTime (σ : Store) : Store :=
  match σ !! spaceshipShaderMaterial with
  | Some m =>
      <[spaceshipShaderMaterial :=
          ShaderMaterial.with_time (ShaderMaterial.time m + 0.05) m]> σ
  | None => σ
  end.

(** The [if (spaceship)] block. *)
Definition followSpaceship (ship : option Node) (c : Camera.t) : Camera.t :=
  match ship with
  | Some n =>
      let p := Object3D.position (self_of n) in
      let c := Camera.with_position (Vector3.with_x (Vector3.x p) (Camera.position c)) c in
      let c := Camera.with_position (Vector3.with_y (Vector3.y p) (Camera.position c)) c in
      let c := Camera.with_position (Vector3.with_z (Vector3.z p + 10) (Camera.position c)) c in
      Camera.with_lookAt p c
  | None => c
  end.

(** The body of [animate] (lines 151-178).  Of [renderer.render(scene,
    camera)] the state keeps the count of the frames drawn; what three.js
    does to a material while it draws it, such as clearing
    [uniformsNeedUpdate], is not part of the script and not modelled: the
    flags of a material are here as the handlers of the script left
    them. *)
Definition animate (s : State) : State :=
  let s := with_materials (advanceTime (materials s)) s in
  let s := with_asteroids (moveAsteroid <$> asteroids s) s in
  let s := with_stars
             (let r := Object3D.rotation (stars s) in
              Object3D.with_rotation (Vector3.with_y (Vector3.y r + -0.0001) r) (stars s)) s in
  let s := with_camera (followSpaceship (spaceship s) (camera s)) s in
  with_frames (S (frames s)) s.

(** ** The loader callbacks (lines 126-147) *)

(** The callback of [spaceship.traverse] in the success handler: a mesh
    gets a clone of [spaceshipShaderMaterial], allocated at the end of the
    store, with [needsUpdate] set.  ([spaceshipShaderMaterial] is always in
    the store; the branch without it is never taken.) *)
Definition applyShader (child : Object3D.t) (σ : Store) : Object3D.t * Store :=
  if Object3D.isMesh child then
    match σ !! spaceshipShaderMaterial with
    | Some m =>
        (Object3D.with_material (shaderMaterialAt (length σ)) child,
         σ ++ [ShaderMaterial.with_needsUpdate true (ShaderMaterial.clone m)])
    | None => (child, σ)
    end
  else (child, σ).

Definition onLoad (gltf_scene : Node) (s : State) : State :=
  let 'node o cs := gltf_scene in
  let o := Object3D.with_scale (Vector3.set 2 2 2 (Object3D.scale o)) o in
  let o := Object3D.with_position (Vector3.set 0 0 0 (Object3D.position o)) o in
  let s := with_scene (scene s ++ [spaceshipObject]) s in
  let '(n, σ) := traverse applyShader (node o cs) (materials s) in
  let s := with_materials σ (with_spaceship (Some n) s) in
  with_console (console s ++ [console_log "Spaceship loaded and added to the scene" None]) s.

Definition onError (error : string) (s : State) : State :=
  with_console (console s ++ [console_error "Error loading spaceship:" error]) s.

(** ** Keyboard controls (lines 181-199) *)

Definition moveSpaceship (f : Vector3.t → Vector3.t) (s : State) : State :=
  match spaceship s with
  | Some (node o cs) =>
      with_spaceship
        (Some (node (Object3D.with_position (f (Object3D.position o)) o) cs)) s
  | None => s
  end.

Definition keydown (key : string) (s : State) : State :=
  match spaceship s with
  | Some _ =>
      if (key =? "ArrowUp")%string then
        moveSpaceship (λ p, Vector3.with_y (Vector3.y p + 0.5) p) s
      else if (key =? "ArrowDown")%string then
        moveSpaceship (λ p, Vector3.with_y (Vector3.y p - 0.5) p) s
      else if (key =? "ArrowLeft")%string then
        moveSpaceship (λ p, Vector3.with_x (Vector3.x p - 0.5) p) s
      else if (key =? "ArrowRight")%string then
        moveSpaceship (λ p, Vector3.with_x (Vector3.x p + 0.5) p) s
      else s
  | None => s
  end.

(** ** Mouse interaction (lines 201-223) *)

Definition colors : list Color.t :=
  [Color.mk 0xc0c0c0; Color.mk 0xb0b0b0; Color.mk 0xffffff].

(** The callback of [spaceship.traverse] in the click handler:
    [child.isMesh && child.material.isShaderMaterial] holds of a mesh whose
    material is in the store.  (References into the store are never
    dangling; the branch for a missing address is never taken.) *)
Definition setColor (c : Color.t) (child : Object3D.t) (σ : Store)
    : Object3D.t * Store :=
  match Object3D.isMesh child, Object3D.material child with
  | true, shaderMaterialAt a =>
      match σ !! a with
      | Some m =>
          (child,
           <[a := ShaderMaterial.with_uniformsNeedUpdate true
                    (ShaderMaterial.with_color c m)]> σ)
      | None => (child, σ)
      end
  | _, _ => (child, σ)
  end.

(** [colors[currentColorIndex]] is defined: the index is below
    [colors.length] after the remainder. *)
Definition click (s : State) : State :=
  let s := with_currentColorIndex ((currentColorIndex s + 1) `mod` length colors) s in
  match spaceship s, colors !! currentColorIndex s with
  | Some n, Some c =>
      let '(n', σ) := traverse (setColor c) n (materials s) in
      let s := with_materials σ (with_spaceship (Some n') s) in
      with_console (console s ++ [console_log "Spaceship color changed to: " (Some c)]) s
  | _, _ => s
  end.

(** ** Window resize (lines 225-230) *)

Definition resize (width height : Number) (s : State) : State :=
  let s := with_camera (Camera.with_aspect (width / height) (camera s)) s in
  with_rendererSize (width, height) s.

(** ** Events *)

(** What the browser delivers after the script has run: an animation
    frame (the callback registered by [requestAnimationFrame]), a key
    press, a click, a resize with the new window size, and the outcome of
    the model request. *)
Inductive Event :=
  | AnimationFrame
  | KeyDown (key : string)
  | Click
  | Resize (width height : Number)
  | Loaded (gltf_scene : Node)
  | LoadFailed (error : string).

(** One event.  The loader calls one of its two callbacks, once, for the
    request it was given: no outcome is delivered when no request is
    under way. *)
Definition step (s : State) (e : Event) : option State :=
  match e with
  | AnimationFrame => Some (animate s)
  | KeyDown key => Some (keydown key s)
  | Click => Some (click s)
  | Resize w h => Some (resize w h s)
  | Loaded g => if loading s then Some (onLoad g (with_loading false s)) else None
  | LoadFailed err => if loading s then Some (onError err (with_loading false s)) else None
  end.

Fixpoint run (s : State) (es : list Event) : option State :=
  match es with
  | [] => Some s
  | e :: es => s' ← step s e; run s' es
  end.

(** The state when the script has run to its end: [animate()] was called
    once, on line 179.  The runs of the program are the runs from
    [start h], that is, the runs from [initial h] whose first event is an
    animation frame; the statements below hold of every run from
    [initial h]. *)
Definition start (h : Host) : State := animate (initial h).

(** ** Vocabulary of the statements *)

(** The objects of a subtree in the order [traverse] visits them. *)
Fixpoint objects (n : Node) : list Object3D.t :=
  let 'node o cs := n in o :: (cs ≫= objects).

(** The mesh-bearing objects of a subtree. *)
Definition meshes (n : Node) : list Object3D.t :=
  filter (λ o, Object3D.isMesh o = true) (objects n).

(** [traverse] on the children of an object. *)
Definition traverseEach (callback : Object3D.t → Store → Object3D.t * Store)
    : list Node → Store → list Node * Store :=
  fix each (cs : list Node) (σ : Store) : list Node * Store :=
    match cs with
    | [] => ([], σ)
    | c :: cs =>
        let '(c', σ') := traverse callback c σ in
        let '(cs', σ'') := each cs σ' in
        (c' :: cs', σ'')
    end.

(** A callback applied to a sequence of objects, threading the store. *)
Fixpoint visit (callback : Object3D.t → Store → Object3D.t * Store)
    (os : list Object3D.t) (σ : Store) : list Object3D.t * Store :=
  match os with
  | [] => ([], σ)
  | o :: os =>
      let '(o', σ') := callback o σ in
      let '(os', σ'') := visit callback os σ' in
      (o' :: os', σ'')
  end.

(** What the click handler writes into a material. *)
Definition painted (c : Color.t) (m : ShaderMaterial.t) : ShaderMaterial.t :=
  ShaderMaterial.with_uniformsNeedUpdate true (ShaderMaterial.with_color c m).

Definition silver : Color.t := Color.mk 0xc0c0c0.
Definition ash : Color.t := Color.mk 0xb0b0b0.
Definition white : Color.t := Color.mk 0xffffff.

(** The colour uniform of the material of an object, when that material
    is a shader material of the store. *)
Definition colorUniform (σ : Store) (o : Object3D.t) : option Color.t :=
  match Object3D.material o with
  | shaderMaterialAt a => ShaderMaterial.color <$> σ !! a
  | otherMaterial => None
  end.

(** The [time] uniform of [spaceshipShaderMaterial]. *)
Definition timeUniform (s : State) : option Number :=
  ShaderMaterial.time <$> materials s !! spaceshipShaderMaterial.

(** 1.0 with 0.05 added [n] times, each sum rounded to binary64. *)
Definition timeAfter (n : nat) : Number :=
  Nat.iter n (λ t, (t + 0.05)%float) 1.0%float.

Definition isTick (e : Event) : bool :=
  match e with AnimationFrame => true | _ => false end.
Definition isClick (e : Event) : bool :=
  match e with Click => true | _ => false end.
Definition isLoadOutcome (e : Event) : bool :=
  match e with Loaded _ | LoadFailed _ => true | _ => false end.

(** Number of events of a kind in a trace. *)
Definition count (kind : Event → bool) (es : list Event) : nat :=
  length (filter (λ e, kind e = true) es).

(** 2^49: the binary64 numbers from there on are 0.125 apart, and adding
    0.05 to 2^49 yields 2^49. *)
Definition clockLimit : Number := 562949953421312%float.

(** The binary64 number 0.05 is [increment_m * 2 ^ increment_e]. *)
Definition increment_m : positive := 7205759403792794.
Definition increment_e : Z := -57.

(** [t] is the binary64 number [m * 2 ^ e], normal and positive, from 1
    to 2^49. *)
Definition clockValue (t : Number) (m : positive) (e : Z) : Prop :=
  Prim2SF t = S754_finite false m e ∧
  (2 ^ 52 ≤ Z.pos m < 2 ^ 53)%Z ∧ (-52 ≤ e)%Z ∧
  (e ≤ -4 ∨ (e = -3 ∧ Z.pos m = 2 ^ 52))%Z.

(** The per-tick update as the eighth section of the specification words
    it, with the threshold tested on the depth before the increment. *)
Definition checkThenIncrement (depth : Number) : Number :=
  if (10 <? depth)%float then (-50)%float else (depth + 0.1)%float.

(** Two objects that differ at most by their material, and not even by
    that unless they are meshes. *)
Definition sameButMaterial (o o' : Object3D.t) : Prop :=
  Object3D.isMesh o' = Object3D.isMesh o ∧
  Object3D.position o' = Object3D.position o ∧
  Object3D.rotation o' = Object3D.rotation o ∧
  Object3D.scale o' = Object3D.scale o ∧
  (Object3D.isMesh o = false → Object3D.material o' = Object3D.material o).

(** What holds of every state the program reaches: the store begins with
    [spaceshipShaderMaterial], whose colour is the silver it was created
    with; the palette index is within the palette; the spaceship is absent
    while the request is under way; and every mesh of the spaceship has a
    shader material of the store other than [spaceshipShaderMaterial]. *)
Definition wellFormed (s : State) : Prop :=
  (∃ m0, materials s !! spaceshipShaderMaterial = Some m0 ∧
         ShaderMaterial.color m0 = silver) ∧
  currentColorIndex s < length colors ∧
  (loading s = true → spaceship s = None) ∧
  (∀ n, spaceship s = Some n →
     Forall (λ r, ∃ a, r = shaderMaterialAt a ∧ 0 < a < length (materials s))
            (Object3D.material <$> meshes n)).

(** Hosts and events used by the examples below: an 800 x 600 window and
    a random source that always answers 0.7, so that every asteroid is
    created at (10, 10, 10); a model made of a group holding two meshes. *)
Definition exampleHost : Host := mkHost 800 600 (λ _, 0.7%float).

(** A random source that always answers 0.9: every asteroid is created
    at (20, 20, 20), beyond the threshold. *)
Definition farHost : Host := mkHost 800 600 (λ _, 0.9%float).

Definition exampleModel : Node :=
  node Object3D.Group
    [node (Object3D.Mesh otherMaterial) [];
     node (Object3D.Mesh otherMaterial) [node Object3D.Group []]].

(** The state after the script has run and the example model has
    loaded. *)
Definition loadedState : State :=
  onLoad exampleModel (with_loading false (start exampleHost)).

(** ** Vocabulary of the further statements *)

#[global] Instance SceneObject_eq_dec : EqDecision SceneObject.
Proof. solve_decision. Defined.

(** The angle of an asteroid about x, and about y, after [n] ticks: 0
    with 0.01 added [n] times. *)
Definition rotationAfter (n : nat) : Number :=
  Nat.iter n (λ r, (r + 0.01)%float) 0%float.

(** The angle of the star cloud about y after [n] ticks: 0 with -0.0001
    added [n] times. *)
Definition starsAfter (n : nat) : Number :=
  Nat.iter n (λ r, (r + -0.0001)%float) 0%float.

(** [decreasing n r]: each of [n] successive additions of -0.0001,
    starting from [r], yields a strictly smaller number. *)
Fixpoint decreasing (n : nat) (r : Number) : bool :=
  match n with
  | 0 => true
  | S n => (r + -0.0001 <? r)%float && decreasing n (r + -0.0001)%float
  end.

(** The size given by the last resize of a trace, or else the size of
    the window when the script ran. *)
Definition sizeAfter (h : Host) (es : list Event) : Number * Number :=
  foldl (λ size e, match e with Resize w h' => (w, h') | _ => size end)
        (innerWidth h, innerHeight h) es.

(** The spaceship is present and the material of each of its meshes is a
    shader material of the store that satisfies [P]. *)
Definition everyMeshMaterial (P : ShaderMaterial.t → Prop) (s : State) : Prop :=
  ∃ ship, spaceship s = Some ship ∧
    Forall (λ r, ∃ a m, r = shaderMaterialAt a ∧ materials s !! a = Some m ∧ P m)
           (Object3D.material <$> meshes ship).

(** * Facts about binary64 arithmetic

    The comparison of two numbers is total unless one of them is NaN, a
    subtraction is the addition of the opposite, and an operation with a
    finite constant yields NaN only from NaN. *)

Section Binary64.

Lemma SFcompare_opp s1 s2 c :
SFcompare s1 s2 = Some c → SFcompare s2 s1 = Some (CompOpp c).
Proof.
destruct s1 as [b1|b1| |b1 m1 e1], s2 as [b2|b2| |b2 m2 e2]; simpl;
  try discriminate; try (destruct b1; intros [= <-]; reflexivity);
  try (destruct b2; intros [= <-]; reflexivity);
  try (destruct b1, b2; intros [= <-]; reflexivity).
assert (Pos.compare_cont Eq m2 m1 = CompOpp (Pos.compare_cont Eq m1 m2)) as ->
  by (symmetry; apply (Pos.compare_cont_antisym m1 m2 Eq)).
rewrite (Z.compare_antisym e1 e2).
destruct b1, b2; intros [= <-]; try reflexivity;
  destruct (e1 ?= e2)%Z; simpl; try reflexivity.
all: destruct (Pos.compare_cont Eq m1 m2); reflexivity.
Qed.

Lemma SFcompare_nan_iff s1 s2 :
SFcompare s1 s2 = None ↔ s1 = S754_nan ∨ s2 = S754_nan.
Proof.
destruct s1 as [b1|b1| |b1 m1 e1], s2 as [b2|b2| |b2 m2 e2]; simpl;
  split; intros H; try discriminate; auto; destruct H; discriminate.
Qed.

Lemma is_nan_Prim2SF (v : float) : is_nan v = false ↔ Prim2SF v ≠ S754_nan.
Proof.
unfold is_nan. rewrite FloatAxioms.eqb_spec. unfold SFeqb.
destruct (SFcompare (Prim2SF v) (Prim2SF v)) as [c|] eqn:E.
- assert (Prim2SF v ≠ S754_nan).
  { intros N. rewrite N in E. discriminate. }
  pose proof (SFcompare_opp _ _ _ E) as E'. rewrite E in E'.
  destruct c; try discriminate; simpl; split; auto.
- apply SFcompare_nan_iff in E. simpl. split; [discriminate|].
  intros N; destruct E; contradiction.
Qed.

Lemma not_ltb_leb (v w : float) :
is_nan v = false → is_nan w = false → (w <? v)%float = false → (v <=? w)%float = true.
Proof.
rewrite !is_nan_Prim2SF, FloatAxioms.ltb_spec, FloatAxioms.leb_spec. unfold SFltb, SFleb.
intros Hv Hw.
destruct (SFcompare (Prim2SF w) (Prim2SF v)) as [c|] eqn:E.
- rewrite (SFcompare_opp _ _ _ E). destruct c; simpl; auto.
- apply SFcompare_nan_iff in E. destruct E; contradiction.
Qed.

Lemma sub_add_opp (v w : float) : (v - w)%float = (v + - w)%float.
Proof.
apply Prim2SF_inj. rewrite sub_spec, add_spec, opp_spec.
destruct (Prim2SF v) as [b1|b1| |b1 m1 e1], (Prim2SF w) as [b2|b2| |b2 m2 e2];
  simpl; try reflexivity; destruct b1, b2; reflexivity.
Qed.

(** Rounding never yields NaN. *)
Lemma iter_pos_shr_1_nonneg p r :
  (0 ≤ shr_m r)%Z → (0 ≤ shr_m (@SpecFloat.iter_pos shr_record shr_1 p r))%Z.
Proof.
revert r. induction p as [p IH|p IH|]; intros r Hr; simpl.
- apply IH, IH. destruct r as [[|[q|q|]|q] ? ?]; simpl in *; lia.
- apply IH, IH, Hr.
- destruct r as [[|[q|q|]|q] ? ?]; simpl in *; lia.
Qed.

Lemma shr_fexp_nonneg m e l : (0 ≤ m)%Z → (0 ≤ shr_m (fst (shr_fexp prec emax m e l)))%Z.
Proof.
intros Hm. unfold shr_fexp, shr.
assert (0 ≤ shr_m (shr_record_of_loc m l))%Z by (destruct l as [|[]]; simpl; lia).
destruct (_ - e)%Z; simpl; auto using iter_pos_shr_1_nonneg.
Qed.

Lemma binary_round_aux_not_nan b m e l :
(0 ≤ m)%Z → binary_round_aux prec emax b m e l ≠ S754_nan.
Proof.
intros Hm. unfold binary_round_aux.
pose proof (shr_fexp_nonneg m e l Hm) as H1.
destruct (shr_fexp prec emax m e l) as [r1 e1]. simpl in H1.
assert (0 ≤ round_nearest_even (shr_m r1) (loc_of_shr_record r1))%Z as H2.
{ unfold round_nearest_even. destruct (loc_of_shr_record r1) as [|[]]; try lia.
  destruct (Z.even _); lia. }
pose proof (shr_fexp_nonneg _ e1 loc_Exact H2) as H3.
destruct (shr_fexp prec emax _ e1 loc_Exact) as [r2 e2]. simpl in H3.
destruct (shr_m r2); try lia; try discriminate.
destruct (_ <=? _)%Z; discriminate.
Qed.

Lemma binary_normalize_not_nan m e b : binary_normalize prec emax m e b ≠ S754_nan.
Proof.
destruct m; simpl; try discriminate; unfold binary_round;
  destruct (shl_align _ _ _); apply binary_round_aux_not_nan; lia.
Qed.

Lemma add_finite_not_nan (v w : float) b m e :
Prim2SF w = S754_finite b m e → is_nan v = false → is_nan (v + w) = false.
Proof.
rewrite !is_nan_Prim2SF, add_spec. intros ->.
destruct (Prim2SF v) as [b1|b1| |b1 m1 e1]; simpl; try discriminate; try congruence.
intros _. apply binary_normalize_not_nan.
Qed.
Lemma sub_finite_not_nan (v w : float) b m e :
Prim2SF w = S754_finite b m e → is_nan v = false → is_nan (v - w) = false.
Proof.
rewrite !is_nan_Prim2SF, sub_spec. intros ->.
destruct (Prim2SF v) as [b1|b1| |b1 m1 e1]; simpl; try discriminate; try congruence.
intros _. apply binary_normalize_not_nan.
Qed.
Lemma mul_finite_not_nan (v w : float) b m e :
Prim2SF w = S754_finite b m e → is_nan v = false → is_nan (v * w) = false.
Proof.
rewrite !is_nan_Prim2SF, mul_spec. intros ->.
destruct (Prim2SF v) as [b1|b1| |b1 m1 e1]; simpl; try discriminate; try congruence.
intros _. apply binary_round_aux_not_nan. lia.
Qed.

End Binary64.

(** * Rounding to nearest in binary64

    The sum of two binary64 numbers is the exact sum of their aligned
    mantissas, shifted right to 53 bits and rounded to nearest, ties to
    even.  The lemmas below follow [SpecFloat]'s definition of that
    shift through, and give the sum of a number of [1, 2^49) and 0.05. *)

Section Rounding.
Local Open Scope Z_scope.

Lemma iter_pos_nat {A} (f : A → A) p x :
  SpecFloat.iter_pos f p x = Nat.iter (Pos.to_nat p) f x.
Proof.
  revert x. induction p as [p IH|p IH|]; intros x; cbn [SpecFloat.iter_pos].
  - rewrite !IH, Pos2Nat.inj_xI. rewrite <- Nat.iter_add, <- Nat.iter_succ_r.
    f_equal. lia.
  - rewrite !IH, Pos2Nat.inj_xO. rewrite <- Nat.iter_add. f_equal. lia.
  - reflexivity.
Qed.

Lemma shr_1_nonneg m r s :
  0 ≤ m → shr_1 (Build_shr_record m r s) = Build_shr_record (m / 2) (Z.odd m) (r || s).
Proof.
  intros Hm. rewrite <- Z.div2_div. destruct m as [|[p|p|]|]; try reflexivity. lia.
Qed.

(** Shifting [a] right by [k] bits, keeping track of the bits lost. *)
Lemma iter_shr_1 (a : Z) (k : nat) :
  0 ≤ a →
  Nat.iter k shr_1 (Build_shr_record a false false) =
    Build_shr_record (a / 2 ^ Z.of_nat k)
      (match k with O => false | S j => Z.testbit a (Z.of_nat j) end)
      (match k with O => false | S j => negb (a mod 2 ^ Z.of_nat j =? 0) end).
Proof.
  intros Ha. induction k as [|k IH].
  - cbn. by rewrite Z.div_1_r.
  - rewrite Nat.iter_succ, IH, shr_1_nonneg by (apply Z.div_pos; lia).
    f_equal.
    + rewrite Z.div_div by lia. f_equal. rewrite Nat2Z.inj_succ, Z.pow_succ_r; lia.
    + rewrite Z.testbit_odd, Z.shiftr_div_pow2 by lia. done.
    + destruct k as [|j]; [cbn; by rewrite Z.mod_1_r|].
      rewrite (Nat2Z.inj_succ j), Z.pow_succ_r by lia.
      rewrite (Z.mul_comm 2), Z.rem_mul_r by lia.
      rewrite Z.testbit_odd, Z.shiftr_div_pow2 by lia.
      rewrite (Zmod_odd (a / 2 ^ Z.of_nat j)).
      pose proof (Z.mod_pos_bound a (2 ^ Z.of_nat j) ltac:(lia)) as Hb.
      assert (0 < 2 ^ Z.of_nat j) by lia. clear IH.
      destruct (Z.odd _); destruct (Z.eqb_spec (a mod 2 ^ Z.of_nat j) 0) as [E|E];
        cbn [orb negb]; symmetry.
      * apply negb_true_iff, Z.eqb_neq. lia.
      * apply negb_true_iff, Z.eqb_neq. lia.
      * apply negb_false_iff, Z.eqb_eq. lia.
      * apply negb_true_iff, Z.eqb_neq. lia.
Qed.

Lemma digits2_pos_bounds p :
  2 ^ (Zpos (digits2_pos p) - 1) ≤ Zpos p < 2 ^ Zpos (digits2_pos p).
Proof.
  induction p as [p IH|p IH|]; cbn [digits2_pos]; [| |by cbn].
  all: rewrite Pos2Z.inj_succ;
       replace (Z.succ (Zpos (digits2_pos p)) - 1) with (Z.succ (Zpos (digits2_pos p) - 1))
         by lia;
       rewrite !Z.pow_succ_r by lia; lia.
Qed.

Lemma digits2_pos_unique p k :
  2 ^ (k - 1) ≤ Zpos p < 2 ^ k → Zpos (digits2_pos p) = k.
Proof.
  intros [Hlo Hhi]. pose proof (digits2_pos_bounds p) as [Hlo' Hhi'].
  assert (0 < k).
  { destruct (Z.lt_trichotomy 0 k) as [?|[<-|?]]; [done| |].
    - cbn in Hhi. lia.
    - rewrite Z.pow_neg_r in Hhi by lia. lia. }
  destruct (Z.lt_trichotomy (Zpos (digits2_pos p)) k) as [Hlt|[?|Hgt]]; [|done|].
  - assert (2 ^ Zpos (digits2_pos p) ≤ 2 ^ (k - 1)) by (apply Z.pow_le_mono_r; lia). lia.
  - assert (2 ^ k ≤ 2 ^ (Zpos (digits2_pos p) - 1)) by (apply Z.pow_le_mono_r; lia). lia.
Qed.

Lemma fexp_normal z : -1074 ≤ z - 53 → fexp prec emax z = z - 53.
Proof. intros Hz. unfold fexp, emin, prec, emax. lia. Qed.

Lemma shr_exact (q e : Z) (n : Z) :
  0 ≤ q → 0 < n →
  shr (Build_shr_record q false false) e n =
    (Build_shr_record (q / 2 ^ n) (Z.testbit q (n - 1))
                      (negb (q mod 2 ^ (n - 1) =? 0)), e + n).
Proof.
  intros Hq Hn. destruct n as [|p|p]; [lia| |lia]. cbn [shr].
  rewrite iter_pos_nat, iter_shr_1 by done.
  destruct (Pos.to_nat p) as [|j] eqn:Hj; [lia|].
  rewrite <- Hj, positive_nat_Z.
  replace (Z.of_nat j) with (Z.pos p - 1) by lia. done.
Qed.

(** Rounding to nearest even of a positive integer [a] of more than 53
    bits, scaled by [2 ^ ex]: the quotient by the power of two that
    leaves 53 bits, or its successor, with the exponent raised by one
    when the successor has 54 bits. *)
Lemma binary_round_aux_long (a : positive) (ex : Z) :
  let D := Z.pos (digits2_pos a) in
  let n := D - 53 in
  let q := Z.pos a / 2 ^ n in
  0 < n → -1074 ≤ ex + n → ex + n + 1 ≤ 971 →
  2 ^ 52 ≤ q < 2 ^ 53 ∧
  ∃ q', (q' = q ∨ q' = q + 1) ∧
        (Z.testbit (Z.pos a) (n - 1) = true → Z.pos a mod 2 ^ (n - 1) ≠ 0 → q' = q + 1) ∧
        binary_round_aux prec emax false (Z.pos a) ex loc_Exact =
          if q' <? 2 ^ 53 then S754_finite false (Z.to_pos q') (ex + n)
          else S754_finite false (Z.to_pos (2 ^ 52)) (ex + n + 1).
Proof.
  intros D n q Hn Hlo Hhi.
  pose proof (digits2_pos_bounds a) as [Halo Hahi]. fold D in Halo, Hahi.
  assert (2 ^ 52 ≤ q < 2 ^ 53) as Hq.
  { assert (0 < 2 ^ n) by (apply Z.pow_pos_nonneg; lia).
    assert (2 ^ (D - 1) = 2 ^ 52 * 2 ^ n) as E1.
    { rewrite <- Z.pow_add_r by lia. f_equal. lia. }
    assert (2 ^ D = 2 ^ 53 * 2 ^ n) as E2.
    { rewrite <- Z.pow_add_r by lia. f_equal. lia. }
    split.
    - apply Z.div_le_lower_bound; lia.
    - apply Z.div_lt_upper_bound; lia. }
  split; [exact Hq|].
  unfold binary_round_aux, shr_fexp.
  cbn [Zdigits2 shr_record_of_loc]. fold D.
  rewrite fexp_normal by lia.
  replace (D + ex - 53 - ex) with n by lia.
  rewrite shr_exact by lia. fold q.
  cbn [shr_m].
  set (r := Z.testbit (Z.pos a) (n - 1)).
  set (s := negb (Z.pos a mod 2 ^ (n - 1) =? 0)).
  set (q' := round_nearest_even q (loc_of_shr_record (Build_shr_record q r s))).
  assert (q' = q ∨ q' = q + 1) as Hq'.
  { subst q'. destruct r, s; cbn; try destruct (Z.even q); auto. }
  assert (r = true → s = true → q' = q + 1) as Hup.
  { intros -> ->. reflexivity. }
  exists q'. split; [exact Hq'|]. split.
  { intros Hr Hs. apply Hup; [exact Hr|]. subst s. apply negb_true_iff, Z.eqb_neq, Hs. }
  clearbody q'. clear Hup. clearbody q. clear Halo Hahi.
  destruct (Z.ltb_spec q' (2 ^ 53)) as [Hlt|Hge].
  - destruct q' as [|p|p]; [lia| |lia].
    assert (Z.pos (digits2_pos p) = 53) as Hd by (apply digits2_pos_unique; lia).
    cbn [Zdigits2]. rewrite Hd, fexp_normal by lia.
    replace (53 + (ex + n) - 53 - (ex + n)) with 0 by lia.
    cbn [shr shr_m]. destruct (Z.leb_spec (ex + n) (emax - prec)) as [_|Hbad].
    + by rewrite Pos2Z.id.
    + unfold emax, prec in Hbad. lia.
  - assert (q' = 2 ^ 53) as -> by lia.
    change (Zdigits2 (2 ^ 53)) with 54.
    rewrite fexp_normal by lia.
    replace (54 + (ex + n) - 53 - (ex + n)) with 1 by lia.
    cbn [shr SpecFloat.iter_pos]. cbn [shr_1 Z.pow Z.pow_pos Pos.iter Z.mul Pos.mul shr_m].
    destruct (Z.leb_spec (ex + n + 1) (emax - prec)) as [_|Hbad].
    + reflexivity.
    + unfold emax, prec in Hbad. lia.
Qed.

Lemma Pos_iter_xO m d : Z.pos (Pos.iter xO m d) = Z.pos m * 2 ^ Z.pos d.
Proof.
  induction d as [|d IH] using Pos.peano_ind.
  - cbn [Pos.iter]. lia.
  - rewrite Pos.iter_succ, Pos2Z.inj_xO, IH, Pos2Z.inj_succ, Z.pow_succ_r by lia. lia.
Qed.

Lemma shl_align_down m e e' :
  e' < e → shl_align m e e' = (Z.to_pos (Z.pos m * 2 ^ (e - e')), e').
Proof.
  intros He. unfold shl_align. destruct (e' - e) as [|d|d] eqn:Hd; [lia|lia|].
  f_equal. apply Pos2Z.inj. rewrite Pos_iter_xO, Z2Pos.id.
  - do 2 f_equal. lia.
  - assert (0 < 2 ^ (e - e')) by (apply Z.pow_pos_nonneg; lia). lia.
Qed.

Lemma Prim2SF_increment : Prim2SF 0.05 = S754_finite false increment_m increment_e.
Proof. reflexivity. Qed.

(** Adding 0.05 to a number of [1, 2^49): the sum is larger, and at most
    2^49. *)
Lemma SFadd_increment m e :
  2 ^ 52 ≤ Z.pos m < 2 ^ 53 → -52 ≤ e ≤ -4 →
  ∃ m' e',
    SF64add (S754_finite false m e) (S754_finite false increment_m increment_e)
      = S754_finite false m' e' ∧
    2 ^ 52 ≤ Z.pos m' < 2 ^ 53 ∧
    ((e' = e ∧ Z.pos m < Z.pos m') ∨ e < e') ∧
    (e' ≤ -4 ∨ (e' = -3 ∧ Z.pos m' = 2 ^ 52)) ∧
    Z.pos m' * 2 ^ (e' + 57) ≤ Z.pos m * 2 ^ (e + 57) + 2 ^ 55.
Proof.
  intros Hm He. unfold SF64add, SFadd, increment_e. cbv zeta.
  rewrite Z.min_r by lia.
  rewrite shl_align_down by lia.
  change (shl_align increment_m (-57) (-57)) with (increment_m, -57).
  cbn [fst cond_Zopp].
  set (d := e - -57). assert (5 ≤ d ≤ 53) as Hd by lia.
  set (P := 2 ^ d). assert (0 < P) as HP by (apply Z.pow_pos_nonneg; lia).
  assert (2 ^ 5 ≤ P) as HP5 by (apply Z.pow_le_mono_r; lia).
  rewrite Z2Pos.id by nia.
  set (M := Z.pos increment_m).
  assert (2 ^ 52 ≤ M < 2 ^ 53) as HM by (subst M; unfold increment_m; lia).
  assert (∃ a, Z.pos m * P + M = Z.pos a) as [a Ha].
  { exists (Z.to_pos (Z.pos m * P + M)). rewrite Z2Pos.id; [done|nia]. }
  rewrite Ha. cbn [binary_normalize]. unfold binary_round.
  set (D := Z.pos (digits2_pos a)).
  assert (D = 53 + d ∨ (D = 54 + d ∧ d ≤ 52)) as HD.
  { destruct (Z_lt_le_dec (Z.pos a) (2 ^ (53 + d))) as [Hlt|Hge].
    - left. apply digits2_pos_unique. split; [|done].
      replace (53 + d - 1) with (52 + d) by lia.
      rewrite Z.pow_add_r by lia. fold P. nia.
    - right. assert (d ≤ 52) as Hd52.
      { destruct (Z_le_gt_dec d 52) as [|Hgt]; [done|].
        assert (d = 53) as Hd53 by lia. exfalso. subst P. rewrite Hd53 in *.
        subst M. unfold increment_m in *. change (53 + 53) with 106 in Hge. lia. }
      split; [|done]. apply digits2_pos_unique. split.
      + by replace (54 + d - 1) with (53 + d) by lia.
      + rewrite <- Ha. rewrite Z.pow_add_r by lia. fold P. nia. }
  assert (fexp prec emax (D + -57) = D - 110) as ->.
  { rewrite fexp_normal by lia. lia. }
  assert (shl_align a (-57) (D - 110) = (a, -57)) as ->.
  { unfold shl_align. destruct (D - 110 - -57) eqn:E; [done|done|lia]. }
  destruct (binary_round_aux_long a (-57)) as (Hq & q' & Hq' & Hup & ->);
    fold D; [lia|lia|lia|].
  fold D in Hq, Hq', Hup.
  destruct HD as [HD|[HD Hd52]]; rewrite HD in *.
  - replace (53 + d - 53) with d in * by lia. fold P in Hq, Hq'.
    rewrite <- Ha in Hq, Hq', Hup.
    rewrite Z.div_add_l in Hq, Hq', Hup by lia.
    assert (Z.pos m < q') as Hgt.
    { destruct (Z_le_gt_dec d 52) as [Hle|Hgt].
      - assert (P ≤ 2 ^ 52) by (apply Z.pow_le_mono_r; lia).
        assert (0 < M / P) by (apply Z.div_str_pos; lia). lia.
      - assert (d = 53) as Hd53 by lia. rewrite Hd53 in Hup.
        subst P. rewrite Hd53 in *.
        rewrite Hup; [rewrite Z.div_small by lia; lia| |].
        + rewrite Z.testbit_odd, Z.shiftr_div_pow2 by lia.
          replace (Z.pos m * 2 ^ 53 + M) with (2 * Z.pos m * 2 ^ (53 - 1) + M) by lia.
          rewrite Z.div_add_l by lia. subst M.
          change (Z.pos increment_m / 2 ^ (53 - 1)) with 1.
          rewrite Z.add_comm, Z.odd_add_mul_2. reflexivity.
        + replace (Z.pos m * 2 ^ 53 + M) with (M + 2 * Z.pos m * 2 ^ (53 - 1)) by lia.
          rewrite Z.mod_add by lia. subst M. done. }
    assert (P ≤ 2 ^ 53) as HP53 by (apply Z.pow_le_mono_r; lia).
    pose proof (Z.mul_div_le M P HP) as HMP.
    assert (q' * P ≤ Z.pos m * P + 2 ^ 55) as HV by nia.
    replace (e + 57) with d by lia. fold P.
    destruct (Z.ltb_spec q' (2 ^ 53)) as [Hlt|Hge].
    + exists (Z.to_pos q'), (-57 + d). split; [done|]. rewrite Z2Pos.id by lia.
      replace (-57 + d + 57) with d by lia. fold P.
      split; [lia|]. split; [left; lia|]. split; [left; lia|done].
    + exists (Z.to_pos (2 ^ 52)), (-57 + d + 1). split; [done|].
      replace (-57 + d + 1 + 57) with (Z.succ d) by lia.
      rewrite Z.pow_succ_r by lia. fold P.
      split; [done|]. split; [right; lia|]. split.
      * destruct (Z_le_gt_dec d 52); [left; lia|right; split; [lia|done]].
      * change (Z.pos (Z.to_pos (2 ^ 52))) with (2 ^ 52). nia.
  - assert (P ≤ 2 ^ 52) as HP52 by (apply Z.pow_le_mono_r; lia).
    replace (54 + d - 53) with (Z.succ d) in * by lia.
    rewrite Z.pow_succ_r in Hq, Hq' by lia. fold P in Hq, Hq'.
    assert (0 < 2 * P) as HP2 by lia.
    pose proof (Z.mul_div_le (Z.pos a) (2 * P) HP2) as HaP.
    set (q := Z.pos a / (2 * P)) in *.
    assert (q' * (2 * P) ≤ Z.pos a + 2 * P) as HV' by nia.
    assert (q' * (2 * P) ≤ Z.pos m * P + 2 ^ 55) as HV by lia.
    replace (e + 57) with d by lia. fold P.
    destruct (Z.ltb_spec q' (2 ^ 53)) as [Hlt|Hge].
    + exists (Z.to_pos q'), (-57 + Z.succ d). split; [done|].
      rewrite Z2Pos.id by lia.
      replace (-57 + Z.succ d + 57) with (Z.succ d) by lia.
      rewrite Z.pow_succ_r by lia. fold P.
      split; [lia|]. split; [right; lia|]. split; [left; lia|done].
    + exists (Z.to_pos (2 ^ 52)), (-57 + Z.succ d + 1). split; [done|].
      replace (-57 + Z.succ d + 1 + 57) with (Z.succ (Z.succ d)) by lia.
      rewrite !Z.pow_succ_r by lia. fold P.
      split; [done|]. split; [right; lia|]. split.
      * destruct (Z_le_gt_dec d 51); [left; lia|right; split; [lia|done]].
      * change (Z.pos (Z.to_pos (2 ^ 52))) with (2 ^ 52). nia.
Qed.

Lemma SFcompare_finite m1 e1 m2 e2 :
  SFcompare (S754_finite false m1 e1) (S754_finite false m2 e2) =
    Some (match e1 ?= e2 with Eq => Z.pos m1 ?= Z.pos m2 | c => c end).
Proof. unfold SFcompare. by destruct (e1 ?= e2). Qed.
End Rounding.

(** * The animation loop *)

Section Animate.
Implicit Types (s : State) (a : Object3D.t).

Lemma asteroids_animate s : asteroids (animate s) = moveAsteroid <$> asteroids s.
Proof. reflexivity. Qed.

Lemma spaceship_animate s : spaceship (animate s) = spaceship s.
Proof. reflexivity. Qed.

Lemma camera_animate s :
  camera (animate s) = followSpaceship (spaceship s) (camera s).
Proof. reflexivity. Qed.

Lemma materials_animate s : materials (animate s) = advanceTime (materials s).
Proof. reflexivity. Qed.

Lemma lookup_asteroids_animate s i :
  asteroids (animate s) !! i = moveAsteroid <$> asteroids s !! i.
Proof. rewrite asteroids_animate. apply list_lookup_fmap. Qed.

(** The new depth of an asteroid, from its depth before the tick. *)
Lemma moveAsteroid_z a :
  Vector3.z (Object3D.position (moveAsteroid a)) =
    let moved := (Vector3.z (Object3D.position a) + 0.1)%float in
    if (10 <? moved)%float then (-50)%float else moved.
Proof.
  unfold moveAsteroid, asteroidSpeed. cbn.
  destruct (10 <? _)%float; reflexivity.
Qed.

Lemma moveAsteroid_xy a :
  Vector3.x (Object3D.position (moveAsteroid a)) = Vector3.x (Object3D.position a) ∧
  Vector3.y (Object3D.position (moveAsteroid a)) = Vector3.y (Object3D.position a).
Proof.
  unfold moveAsteroid. cbn. destruct (10 <? _)%float; split; reflexivity.
Qed.

Lemma moveAsteroid_not_nan a :
  is_nan (Vector3.z (Object3D.position a)) = false →
  is_nan (Vector3.z (Object3D.position (moveAsteroid a))) = false.
Proof.
  intros Hz. rewrite moveAsteroid_z. cbn zeta.
  destruct (10 <? _)%float; [reflexivity|].
  by eapply add_finite_not_nan; [vm_compute; reflexivity|].
Qed.

Lemma moveAsteroid_at_most_10 a :
  is_nan (Vector3.z (Object3D.position a)) = false →
  (Vector3.z (Object3D.position (moveAsteroid a)) <=? 10)%float = true.
Proof.
  intros Hz. rewrite moveAsteroid_z. cbn zeta.
  destruct (10 <? _)%float eqn:E; [reflexivity|].
  apply not_ltb_leb; [|reflexivity|exact E].
  by eapply add_finite_not_nan; [vm_compute; reflexivity|].
Qed.
End Animate.

(** C1: on every render tick every asteroid's position.z is first
    incremented by 0.1 and then, if the incremented value exceeds 10, reset
    to -50 on that same tick; an asteroid at z = 9.95 ends the tick at
    z = -50. *)
Theorem animate_increments_then_wraps (s : State) (i : nat) (a : Object3D.t) :
  asteroids s !! i = Some a →
  ∃ a', asteroids (animate s) !! i = Some a' ∧
    (let moved := (Vector3.z (Object3D.position a) + 0.1)%float in
     Vector3.z (Object3D.position a') =
       if (10 <? moved)%float then (-50)%float else moved) ∧
    (Vector3.z (Object3D.position a) = 9.95%float →
     Vector3.z (Object3D.position a') = (-50)%float ∧
     Vector3.z (Object3D.position a') ≠ (9.95 + 0.1)%float).
Proof.
  intros Ha. exists (moveAsteroid a). split; [|split].
  - by rewrite lookup_asteroids_animate, Ha.
  - apply moveAsteroid_z.
  - intros Hz. rewrite moveAsteroid_z, Hz. split; [reflexivity|].
    intros H. apply (f_equal (λ v, (v <? 0)%float)) in H. discriminate H.
Qed.

Lemma animate_increments_then_wraps_witness :
  ∃ a', asteroids (animate (with_asteroids
                      [Object3D.with_position (Vector3.mk 1 2 9.95)
                         (Object3D.Mesh otherMaterial)] (initial exampleHost))) !! 0
          = Some a' ∧
        Vector3.z (Object3D.position a') = (-50)%float.
Proof.
  destruct (animate_increments_then_wraps
              (with_asteroids
                 [Object3D.with_position (Vector3.mk 1 2 9.95)
                    (Object3D.Mesh otherMaterial)] (initial exampleHost))
              0 _ eq_refl) as (a' & H1 & _ & H3).
  exists a'. split; [exact H1|]. apply H3. reflexivity.
Defined.

(** * Traversals *)

Section Traverse.
Implicit Types (n : Node) (o : Object3D.t) (σ : Store) (c : Color.t).

Lemma Node_forall_ind (P : Node → Prop) :
  (∀ o cs, Forall P cs → P (node o cs)) → ∀ n, P n.
Proof.
  intros step. fix IH 1. intros [o cs]. apply step.
  induction cs as [|c cs IHcs]; constructor; [apply IH|exact IHcs].
Qed.

Lemma traverse_node callback o cs σ :
  traverse callback (node o cs) σ =
    let '(o', σ1) := callback o σ in
    let '(cs', σ2) := traverseEach callback cs σ1 in
    (node o' cs', σ2).
Proof. reflexivity. Qed.

Lemma traverseEach_cons callback n cs σ :
  traverseEach callback (n :: cs) σ =
    let '(n', σ') := traverse callback n σ in
    let '(cs', σ'') := traverseEach callback cs σ' in
    (n' :: cs', σ'').
Proof. reflexivity. Qed.

Lemma visit_app callback (l1 l2 : list Object3D.t) σ :
  visit callback (l1 ++ l2) σ =
    let '(l1', σ1) := visit callback l1 σ in
    let '(l2', σ2) := visit callback l2 σ1 in
    (l1' ++ l2', σ2).
Proof.
  revert σ. induction l1 as [|o l1 IH]; intros σ; cbn.
  - by destruct (visit callback l2 σ).
  - destruct (callback o σ) as [o' σ']. rewrite IH.
    destruct (visit callback l1 σ') as [l1' σ1].
    by destruct (visit callback l2 σ1).
Qed.

(** A traversal is the callback run over the objects in visiting order. *)
Lemma traverse_visit callback n :
  ∀ σ, visit callback (objects n) σ =
         (objects (traverse callback n σ).1, (traverse callback n σ).2).
Proof.
  induction n as [o cs IH] using Node_forall_ind. intros σ.
  rewrite traverse_node. cbn [objects visit].
  destruct (callback o σ) as [o' σ1].
  assert (∀ σ, visit callback (cs ≫= objects) σ =
               ((traverseEach callback cs σ).1 ≫= objects,
                (traverseEach callback cs σ).2)) as Hcs.
  { clear σ σ1. induction IH as [|c cs Hc _ IHcs]; intros σ; [reflexivity|].
    rewrite traverseEach_cons, bind_cons, visit_app, Hc.
    destruct (traverse callback c σ) as [c' σ']. cbn [fst snd].
    rewrite IHcs. destruct (traverseEach callback cs σ') as [cs' σ''].
    cbn [fst snd]. by rewrite bind_cons. }
  rewrite Hcs. destruct (traverseEach callback cs σ1); reflexivity.
Qed.

(** The root of a traversed subtree is the callback's result on the root. *)
Lemma traverse_self callback n σ :
  self_of (traverse callback n σ).1 = (callback (self_of n) σ).1.
Proof.
  destruct n as [o cs]. rewrite traverse_node. cbn.
  destruct (callback o σ) as [o' σ1], (traverseEach callback cs σ1); reflexivity.
Qed.

(** The success handler's traversal: one clone per mesh, appended to the
    store in visiting order, each mesh pointing to its own clone. *)
Lemma visit_applyShader m0 (os : list Object3D.t) :
  ∀ σ, σ !! spaceshipShaderMaterial = Some m0 →
  let k := length (filter (λ o, Object3D.isMesh o = true) os) in
  ∃ os', visit applyShader os σ =
           (os', σ ++ replicate k (ShaderMaterial.with_needsUpdate true
                                     (ShaderMaterial.clone m0))) ∧
         Forall2 sameButMaterial os os' ∧
         Object3D.material <$> filter (λ o, Object3D.isMesh o = true) os'
           = shaderMaterialAt <$> seq (length σ) k.
Proof.
  induction os as [|o os IH]; intros σ Hσ; cbn zeta.
  - exists []. cbn. rewrite app_nil_r. by repeat split.
  - cbn [visit]. unfold applyShader at 1. destruct (Object3D.isMesh o) eqn:Eo.
    + rewrite Hσ. rewrite filter_cons_True by done.
      destruct (IH (σ ++ [ShaderMaterial.with_needsUpdate true (ShaderMaterial.clone m0)]))
        as (os' & Hv & Hsame & Hmat).
      { rewrite lookup_app_l; [done|]. by apply lookup_lt_Some in Hσ. }
      cbn zeta in Hv, Hmat. rewrite Hv.
      eexists. split; [|split].
      * cbn [length replicate]. by rewrite <- app_assoc.
      * constructor; [|done]. by repeat split; cbn; rewrite ?Eo.
      * rewrite filter_cons_True by done. cbn [length seq fmap list_fmap].
        f_equal. rewrite Hmat, length_app. cbn. by rewrite Nat.add_1_r.
    + rewrite filter_cons_False by (rewrite Eo; done).
      destruct (IH σ Hσ) as (os' & Hv & Hsame & Hmat).
      cbn zeta in Hv, Hmat. rewrite Hv.
      eexists. split; [done|split].
      * constructor; [|done]. by repeat split.
      * rewrite filter_cons_False by (rewrite Eo; done). done.
Qed.

Lemma decide_elem_of_cons_ne {A B} `{EqDecision A} (u v : A) (l : list A) (p q : B) :
  u ≠ v →
  (if decide (u ∈ v :: l) then p else q) = (if decide (u ∈ l) then p else q).
Proof.
  intros Huv. apply decide_ext. rewrite elem_of_cons.
  split; [intros [?|?]|intros ?]; [done|done|by right].
Qed.

(** The click handler's traversal leaves the objects alone and paints the
    materials of the meshes, where they are in the store. *)
Lemma visit_setColor c (os : list Object3D.t) :
  ∀ σ, ∃ σ', visit (setColor c) os σ = (os, σ') ∧
    length σ' = length σ ∧
    ∀ a, σ' !! a =
           if decide (shaderMaterialAt a ∈
                        Object3D.material <$> filter (λ o, Object3D.isMesh o = true) os)
           then painted c <$> σ !! a else σ !! a.
Proof.
  induction os as [|o os IH]; intros σ.
  - exists σ. split; [done|]. split; [done|].
    intros a. rewrite decide_False; [done|]. cbn. apply not_elem_of_nil.
  - cbn [visit]. unfold setColor at 1.
    destruct (Object3D.isMesh o) eqn:Eo.
    2: { rewrite filter_cons_False by (rewrite Eo; done).
         destruct (IH σ) as (σ' & -> & ? & ?). by exists σ'. }
    rewrite filter_cons_True by done. rewrite fmap_cons.
    destruct (Object3D.material o) as [|b] eqn:Em.
    { destruct (IH σ) as (σ' & -> & ? & Hl). exists σ'.
      split; [done|]. split; [done|].
      intros a. by rewrite Hl, decide_elem_of_cons_ne. }
    destruct (σ !! b) as [m|] eqn:Eb.
    + change (ShaderMaterial.with_uniformsNeedUpdate _ _) with (painted c m).
      destruct (IH (<[b:=painted c m]> σ)) as (σ' & -> & Hlen & Hl).
      exists σ'. split; [done|]. split; [by rewrite Hlen, length_insert|].
      intros a. rewrite Hl. destruct (decide (a = b)) as [->|Hab].
      * rewrite list_lookup_insert_eq by (by eapply lookup_lt_Some).
        rewrite Eb. cbn. rewrite (decide_True (P:=_ ∈ _ :: _)) by (apply elem_of_cons; by left).
        by case_decide.
      * rewrite list_lookup_insert_ne by done.
        by rewrite decide_elem_of_cons_ne by congruence.
    + destruct (IH σ) as (σ' & -> & ? & Hl). exists σ'.
      split; [done|]. split; [done|].
      intros a. rewrite Hl. destruct (decide (a = b)) as [->|Hab].
      * rewrite Eb. cbn. by repeat case_decide.
      * by rewrite decide_elem_of_cons_ne by congruence.
Qed.
End Traverse.

(** * The handlers *)

Section Handlers.
Implicit Types (s : State) (n : Node) (o : Object3D.t) (σ : Store) (c : Color.t).

(** A callback that returns the object it got leaves the subtree as it is. *)
Lemma traverse_unchanged callback n :
  (∀ o σ, (callback o σ).1 = o) → ∀ σ, (traverse callback n σ).1 = n.
Proof.
  intros Hcb. induction n as [o cs IH] using Node_forall_ind. intros σ.
  rewrite traverse_node. specialize (Hcb o σ).
  destruct (callback o σ) as [o' σ1]. cbn in Hcb. subst o'.
  assert (∀ σ, (traverseEach callback cs σ).1 = cs) as Hcs.
  { clear σ σ1. induction IH as [|c cs Hc _ IHcs]; intros σ; [done|].
    rewrite traverseEach_cons. specialize (Hc σ).
    destruct (traverse callback c σ) as [c' σ']. cbn in Hc. subst c'.
    specialize (IHcs σ'). destruct (traverseEach callback cs σ') as [cs' σ''].
    cbn in *. by subst cs'. }
  specialize (Hcs σ1). destruct (traverseEach callback cs σ1) as [cs' σ2].
  cbn in *. by subst cs'.
Qed.

Lemma setColor_object c o σ : (setColor c o σ).1 = o.
Proof.
  unfold setColor. destruct (Object3D.isMesh o), (Object3D.material o) as [|a]; try done.
  by destruct (σ !! a).
Qed.

(** The click handler's traversal, on a subtree. *)
Lemma traverse_setColor c n σ :
  ∃ σ', traverse (setColor c) n σ = (n, σ') ∧
    length σ' = length σ ∧
    ∀ a, σ' !! a =
           if decide (shaderMaterialAt a ∈ Object3D.material <$> meshes n)
           then painted c <$> σ !! a else σ !! a.
Proof.
  pose proof (traverse_visit (setColor c) n σ) as Hv.
  pose proof (traverse_unchanged (setColor c) n (setColor_object c) σ) as Hn.
  destruct (visit_setColor c (objects n) σ) as (σ' & Hv' & Hlen & Hl).
  rewrite Hv' in Hv. destruct (traverse (setColor c) n σ) as [n' σ''].
  cbn in *. simplify_eq. by exists σ''.
Qed.

(** The success handler's traversal, on a subtree. *)
Lemma traverse_applyShader m0 n σ :
  σ !! spaceshipShaderMaterial = Some m0 →
  ∃ n', traverse applyShader n σ =
          (n', σ ++ replicate (length (meshes n))
                      (ShaderMaterial.with_needsUpdate true (ShaderMaterial.clone m0))) ∧
        Forall2 sameButMaterial (objects n) (objects n') ∧
        Object3D.material <$> meshes n' = shaderMaterialAt <$> seq (length σ) (length (meshes n)).
Proof.
  intros Hσ.
  pose proof (traverse_visit applyShader n σ) as Hv.
  destruct (visit_applyShader m0 (objects n) σ Hσ) as (os' & Hv' & Hsame & Hmat).
  cbn zeta in Hv', Hmat.
  rewrite Hv' in Hv. destruct (traverse applyShader n σ) as [n' σ'].
  cbn in Hv. simplify_eq. by exists n'.
Qed.

Lemma colors_lookup i : i < 3 → ∃ c, colors !! i = Some c.
Proof.
  intros Hi. destruct i as [|[|[|i]]]; [by eexists..|lia].
Qed.

Lemma click_absent s :
  spaceship s = None →
  click s = with_currentColorIndex ((currentColorIndex s + 1) `mod` 3) s.
Proof.
  intros Hn. unfold click. change (length colors) with 3.
  cbn [with_currentColorIndex spaceship]. by rewrite Hn.
Qed.

Lemma click_present s n :
  spaceship s = Some n →
  ∃ c σ', colors !! ((currentColorIndex s + 1) `mod` 3) = Some c ∧
    click s = with_console (console s ++ [console_log "Spaceship color changed to: " (Some c)])
                (with_materials σ'
                   (with_currentColorIndex ((currentColorIndex s + 1) `mod` 3) s)) ∧
    length σ' = length (materials s) ∧
    ∀ a, σ' !! a =
           if decide (shaderMaterialAt a ∈ Object3D.material <$> meshes n)
           then painted c <$> materials s !! a else materials s !! a.
Proof.
  intros Hn.
  destruct (colors_lookup ((currentColorIndex s + 1) `mod` 3)) as [c Hc].
  { apply Nat.mod_upper_bound. done. }
  destruct (traverse_setColor c n (materials s)) as (σ' & Ht & Hlen & Hl).
  exists c, σ'. split; [done|]. split; [|done].
  unfold click. change (length colors) with 3.
  cbn [with_currentColorIndex spaceship currentColorIndex materials].
  rewrite Hn, Hc, Ht.
  unfold with_console, with_materials, with_spaceship, with_currentColorIndex.
  cbn. by rewrite Hn.
Qed.
End Handlers.

(** * Keyboard *)

Section Keydown.
Implicit Types (s : State) (o : Object3D.t).

Lemma keydown_absent key s : spaceship s = None → keydown key s = s.
Proof. unfold keydown. by intros ->. Qed.

Lemma moveSpaceship_present f s o cs :
  spaceship s = Some (node o cs) →
  moveSpaceship f s =
    with_spaceship (Some (node (Object3D.with_position (f (Object3D.position o)) o) cs)) s.
Proof. unfold moveSpaceship. by intros ->. Qed.

Lemma keydown_other key s :
  key ≠ "ArrowUp"%string → key ≠ "ArrowDown"%string →
  key ≠ "ArrowLeft"%string → key ≠ "ArrowRight"%string →
  keydown key s = s.
Proof.
  intros H1 H2 H3 H4. unfold keydown.
  apply String.eqb_neq in H1, H2, H3, H4. rewrite H1, H2, H3, H4.
  by destruct (spaceship s).
Qed.

(** Whatever the key, the handler keeps everything but the position of
    the spaceship's root, and of that position it keeps the depth. *)
Lemma keydown_frame key s :
  ∃ f, keydown key s = moveSpaceship f s ∧ ∀ p, Vector3.z (f p) = Vector3.z p.
Proof.
  unfold keydown. destruct (spaceship s) as [[o cs]|] eqn:E.
  - repeat (destruct (_ =? _)%string; [by eexists; split; [done|]|]).
    exists id. split; [|done]. unfold moveSpaceship. rewrite E.
    destruct s, o as [? ? []]; cbn in *. by subst.
  - exists id. split; [|done]. unfold moveSpaceship. by rewrite E.
Qed.
End Keydown.

(** * The loader callbacks *)

Section Loader.
Implicit Types (s : State) (n g : Node) (o : Object3D.t) (σ : Store).

Lemma sameButMaterial_isMesh (os os' : list Object3D.t) :
  Forall2 sameButMaterial os os' →
  Object3D.isMesh <$> os' = Object3D.isMesh <$> os.
Proof.
  induction 1 as [|o o' os os' (Hm & _) _ IH]; [done|].
  cbn. by rewrite Hm, IH.
Qed.

Lemma length_meshes_isMesh n n' :
  Object3D.isMesh <$> objects n' = Object3D.isMesh <$> objects n →
  length (meshes n') = length (meshes n).
Proof.
  unfold meshes. generalize (objects n) (objects n'). intros os.
  induction os as [|o os IH]; intros [|o' os']; try done.
  cbn [fmap list_fmap]. intros [= Ho Hos].
  destruct (Object3D.isMesh o) eqn:E.
  - rewrite !filter_cons_True by done. cbn. f_equal. by apply IH.
  - rewrite !filter_cons_False by (by rewrite ?Ho, ?E). by apply IH.
Qed.

(** What the success handler does to a state whose store holds
    [spaceshipShaderMaterial]. *)
Lemma onLoad_spec s g m0 :
  materials s !! spaceshipShaderMaterial = Some m0 →
  let k := length (meshes g) in
  let fresh := ShaderMaterial.with_needsUpdate true (ShaderMaterial.clone m0) in
  ∃ n', onLoad g s =
          with_console (console s ++ [console_log "Spaceship loaded and added to the scene" None])
            (with_materials (materials s ++ replicate k fresh)
               (with_spaceship (Some n')
                  (with_scene (scene s ++ [spaceshipObject]) s))) ∧
        Object3D.scale (self_of n') = Vector3.mk 2 2 2 ∧
        Object3D.position (self_of n') = Vector3.mk 0 0 0 ∧
        Object3D.isMesh <$> objects n' = Object3D.isMesh <$> objects g ∧
        Object3D.material <$> meshes n' = shaderMaterialAt <$> seq (length (materials s)) k.
Proof.
  intros Hσ k fresh. destruct g as [o cs]. unfold onLoad.
  set (o2 := Object3D.with_position _ _).
  cbn [materials with_scene].
  destruct (traverse_applyShader m0 (node o2 cs) (materials s) Hσ)
    as (n' & Ht & Hsame & Hmat).
  assert (length (meshes (node o2 cs)) = k) as Hk.
  { apply length_meshes_isMesh. done. }
  rewrite Hk in Ht, Hmat. rewrite Ht. exists n'.
  split; [done|].
  pose proof (traverse_self applyShader (node o2 cs) (materials s)) as Hself.
  rewrite Ht in Hself. cbn [fst self_of] in Hself.
  assert (Object3D.scale (self_of n') = Vector3.mk 2 2 2 ∧
          Object3D.position (self_of n') = Vector3.mk 0 0 0) as [? ?].
  { rewrite Hself. unfold applyShader. destruct (Object3D.isMesh o2); [|done].
    by rewrite Hσ. }
  split; [done|]. split; [done|]. split; [|done].
  by rewrite (sameButMaterial_isMesh _ _ Hsame).
Qed.
End Loader.

(** * Reachable states are well formed *)

Section WellFormed.
Implicit Types (s : State) (n g : Node) (o : Object3D.t) (σ : Store) (e : Event).

Lemma advanceTime_spec σ m0 :
  σ !! spaceshipShaderMaterial = Some m0 →
  advanceTime σ =
    <[spaceshipShaderMaterial :=
        ShaderMaterial.with_time (ShaderMaterial.time m0 + 0.05) m0]> σ.
Proof. unfold advanceTime. by intros ->. Qed.

Lemma length_advanceTime σ : length (advanceTime σ) = length σ.
Proof.
  unfold advanceTime. destruct (σ !! _); [|done]. apply length_insert.
Qed.

Lemma meshes_moved f o cs :
  Object3D.material <$> meshes (node (Object3D.with_position f o) cs)
    = Object3D.material <$> meshes (node o cs).
Proof.
  unfold meshes. cbn [objects]. destruct (Object3D.isMesh o) eqn:E.
  - by rewrite !filter_cons_True by done.
  - by rewrite !filter_cons_False by (cbn; by rewrite E).
Qed.

Lemma wellFormed_initial h : wellFormed (initial h).
Proof.
  split; [by eexists|]. split; [cbn; lia|]. by split.
Qed.

Lemma wellFormed_animate s : wellFormed s → wellFormed (animate s).
Proof.
  intros ((m0 & Hm0 & Hc) & Hi & Hl & Hn).
  split; [|split; [done|split; [done|]]].
  - rewrite materials_animate, (advanceTime_spec _ _ Hm0).
    exists (ShaderMaterial.with_time (ShaderMaterial.time m0 + 0.05) m0).
    split; [|exact Hc].
    apply list_lookup_insert_eq. by eapply lookup_lt_Some.
  - intros n En. rewrite materials_animate, length_advanceTime. by apply Hn.
Qed.

Lemma wellFormed_moveSpaceship f s : wellFormed s → wellFormed (moveSpaceship f s).
Proof.
  intros Hwf. pose proof Hwf as (Hm0 & Hi & Hl & Hn). unfold moveSpaceship.
  destruct (spaceship s) as [[o cs]|] eqn:E; [|done].
  split; [done|]. split; [done|]. split.
  - intros Hld. apply Hl in Hld. congruence.
  - intros n [= <-]. rewrite meshes_moved. by apply Hn.
Qed.

Lemma wellFormed_keydown key s : wellFormed s → wellFormed (keydown key s).
Proof.
  destruct (keydown_frame key s) as (f & -> & _). apply wellFormed_moveSpaceship.
Qed.

Lemma not_template_mesh s n :
  wellFormed s → spaceship s = Some n →
  shaderMaterialAt spaceshipShaderMaterial ∉ Object3D.material <$> meshes n.
Proof.
  intros (_ & _ & _ & Hn) En Hin. specialize (Hn n En).
  rewrite Forall_forall in Hn. destruct (Hn _ Hin) as (a & [= <-] & Ha & _).
  unfold spaceshipShaderMaterial in Ha. lia.
Qed.

Lemma wellFormed_click s : wellFormed s → wellFormed (click s).
Proof.
  intros Hwf. pose proof Hwf as ((m0 & Hm0 & Hc) & Hi & Hl & Hn).
  assert ((currentColorIndex s + 1) `mod` 3 < length colors) as Hi'.
  { by apply Nat.mod_upper_bound. }
  destruct (spaceship s) as [n|] eqn:E.
  - destruct (click_present s n E) as (c & σ' & _ & -> & Hlen & Hlk).
    split; [|split; [done|split]].
    + exists m0. split; [|done]. cbn. rewrite Hlk, decide_False; [done|].
      by apply (not_template_mesh s).
    + cbn. rewrite E. exact Hl.
    + cbn. intros n' En'. rewrite Hlen. apply Hn. congruence.
  - rewrite (click_absent s E). split; [by exists m0|]. split; [done|].
    split; cbn; rewrite E; [done|]. exact Hn.
Qed.

Lemma wellFormed_resize w h s : wellFormed s → wellFormed (resize w h s).
Proof. done. Qed.

Lemma wellFormed_onError err s :
  wellFormed s → wellFormed (onError err (with_loading false s)).
Proof. intros (? & ? & ? & ?). by repeat split. Qed.

Lemma wellFormed_onLoad g s :
  wellFormed s → wellFormed (onLoad g (with_loading false s)).
Proof.
  intros ((m0 & Hm0 & Hc) & Hi & Hl & Hn).
  destruct (onLoad_spec (with_loading false s) g m0 Hm0)
    as (n' & -> & _ & _ & _ & Hmat).
  split; [|split; [done|split; [done|]]].
  - exists m0. split; [|done]. cbn. rewrite lookup_app_l; [done|].
    by eapply lookup_lt_Some.
  - cbn. intros n [= <-]. rewrite Hmat. apply Forall_forall.
    intros r (a & -> & Ha)%list_elem_of_fmap. apply elem_of_seq in Ha.
    exists a. split; [done|]. rewrite length_app, length_replicate.
    apply lookup_lt_Some in Hm0. unfold spaceshipShaderMaterial in Hm0.
    cbn [materials with_loading] in Ha. lia.
Qed.

Lemma wellFormed_step s e s' : wellFormed s → step s e = Some s' → wellFormed s'.
Proof.
  intros Hwf. destruct e; cbn; try (intros [= <-]).
  - by apply wellFormed_animate.
  - by apply wellFormed_keydown.
  - by apply wellFormed_click.
  - by apply wellFormed_resize.
  - destruct (loading s); [|done]. intros [= <-]. by apply wellFormed_onLoad.
  - destruct (loading s); [|done]. intros [= <-]. by apply wellFormed_onError.
Qed.

(** Any property that every event preserves holds along a run. *)
Lemma run_invariant (P : State → Prop) :
  (∀ s e s', P s → step s e = Some s' → P s') →
  ∀ es s s', P s → run s es = Some s' → P s'.
Proof.
  intros Hstep es. induction es as [|e es IH]; intros s s' Hs; cbn.
  - by intros [= <-].
  - destruct (step s e) as [s1|] eqn:E; [|done]. cbn. eauto.
Qed.

Lemma run_app s es1 es2 :
  run s (es1 ++ es2) = run s es1 ≫= λ s1, run s1 es2.
Proof.
  revert s. induction es1 as [|e es1 IH]; intros s; [done|].
  cbn. destruct (step s e); [apply IH|done].
Qed.

(** The script's own call of [animate] is the first event of a run. *)
Lemma run_start h es : run (start h) es = run (initial h) (AnimationFrame :: es).
Proof. reflexivity. Qed.

Lemma wellFormed_run h es s : run (initial h) es = Some s → wellFormed s.
Proof.
  apply (run_invariant wellFormed); [apply wellFormed_step|apply wellFormed_initial].
Qed.
End WellFormed.

(** * What each event changes *)

Section Steps.
Implicit Types (s : State) (n g : Node) (o : Object3D.t) (σ : Store) (e : Event).

Lemma moveSpaceship_frame f s :
  materials (moveSpaceship f s) = materials s ∧
  asteroids (moveSpaceship f s) = asteroids s ∧
  camera (moveSpaceship f s) = camera s ∧
  currentColorIndex (moveSpaceship f s) = currentColorIndex s ∧
  scene (moveSpaceship f s) = scene s ∧
  loading (moveSpaceship f s) = loading s ∧
  (spaceship s = None → spaceship (moveSpaceship f s) = None).
Proof.
  unfold moveSpaceship. destruct (spaceship s) as [[o cs]|] eqn:E; cbn.
  - by repeat split.
  - by repeat split.
Qed.

Lemma onLoad_frame g s :
  asteroids (onLoad g s) = asteroids s ∧
  camera (onLoad g s) = camera s ∧
  currentColorIndex (onLoad g s) = currentColorIndex s ∧
  loading (onLoad g s) = loading s.
Proof.
  destruct g as [o cs]. unfold onLoad.
  by destruct (traverse applyShader _ _).
Qed.

Lemma click_frame s :
  asteroids (click s) = asteroids s ∧
  camera (click s) = camera s ∧
  spaceship (click s) = spaceship s ∧
  scene (click s) = scene s ∧
  loading (click s) = loading s ∧
  currentColorIndex (click s) = (currentColorIndex s + 1) `mod` 3.
Proof.
  destruct (spaceship s) as [n|] eqn:E.
  - destruct (click_present s n E) as (c & σ' & _ & -> & _). by cbn.
  - by rewrite (click_absent s E).
Qed.

Lemma count_cons kind e es :
  count kind (e :: es) = (if kind e then 1 else 0) + count kind es.
Proof.
  unfold count. destruct (kind e) eqn:E.
  - by rewrite filter_cons_True.
  - by rewrite filter_cons_False by (by rewrite E).
Qed.

Lemma count_app kind es1 es2 :
  count kind (es1 ++ es2) = count kind es1 + count kind es2.
Proof. unfold count. by rewrite filter_app, length_app. Qed.

(** Only an animation frame touches the asteroids. *)
Lemma step_asteroids s e s' :
  step s e = Some s' →
  asteroids s' = if isTick e then moveAsteroid <$> asteroids s else asteroids s.
Proof.
  destruct e; cbn; try (intros [= <-]); try done.
  - by destruct (keydown_frame key s) as (f & -> & _), (moveSpaceship_frame f s) as (_ & -> & _).
  - by destruct (click_frame s) as (-> & _).
  - destruct (loading s); [|done]. intros [= <-].
    by destruct (onLoad_frame gltf_scene (with_loading false s)) as (-> & _).
  - destruct (loading s); [|done]. by intros [= <-].
Qed.

(** Only a click touches the palette index. *)
Lemma step_currentColorIndex s e s' :
  step s e = Some s' →
  currentColorIndex s' =
    if isClick e then (currentColorIndex s + 1) `mod` 3 else currentColorIndex s.
Proof.
  destruct e; cbn; try (intros [= <-]); try done.
  - by destruct (keydown_frame key s) as (f & -> & _),
         (moveSpaceship_frame f s) as (_ & _ & _ & -> & _).
  - by destruct (click_frame s) as (_ & _ & _ & _ & _ & ->).
  - destruct (loading s); [|done]. intros [= <-].
    by destruct (onLoad_frame gltf_scene (with_loading false s)) as (_ & _ & -> & _).
  - destruct (loading s); [|done]. by intros [= <-].
Qed.

(** Only an animation frame touches the [time] uniform of
    [spaceshipShaderMaterial]. *)
Lemma step_timeUniform s e s' :
  wellFormed s → step s e = Some s' →
  timeUniform s' =
    if isTick e then (λ t, (t + 0.05)%float) <$> timeUniform s else timeUniform s.
Proof.
  intros Hwf. pose proof Hwf as ((m0 & Hm0 & _) & _). unfold timeUniform.
  destruct e; cbn [step isTick]; try (intros [= <-]).
  - rewrite materials_animate, (advanceTime_spec _ _ Hm0), Hm0.
    rewrite list_lookup_insert_eq by (by eapply lookup_lt_Some). done.
  - by destruct (keydown_frame key s) as (f & -> & _), (moveSpaceship_frame f s) as (-> & _).
  - destruct (spaceship s) as [n|] eqn:E.
    + destruct (click_present s n E) as (c & σ' & _ & -> & _ & Hlk). cbn.
      rewrite Hlk, decide_False; [done|]. by apply (not_template_mesh s).
    + by rewrite (click_absent s E).
  - done.
  - destruct (loading s); [|done]. intros [= <-].
    destruct (onLoad_spec (with_loading false s) gltf_scene m0 Hm0) as (n' & -> & _).
    cbn. rewrite lookup_app_l; [done|]. by eapply lookup_lt_Some.
  - destruct (loading s); [|done]. by intros [= <-].
Qed.

(** The request is under way until the loader delivers its outcome, and
    never again afterwards. *)
Lemma step_loading s e s' :
  step s e = Some s' →
  loading s' = if isLoadOutcome e then false else loading s.
Proof.
  destruct e; cbn; try (intros [= <-]); try done.
  - by destruct (keydown_frame key s) as (f & -> & _),
         (moveSpaceship_frame f s) as (_ & _ & _ & _ & _ & -> & _).
  - by destruct (click_frame s) as (_ & _ & _ & _ & -> & _).
  - destruct (loading s); [|done]. intros [= <-].
    by destruct (onLoad_frame gltf_scene (with_loading false s)) as (_ & _ & _ & ->).
  - destruct (loading s); [|done]. by intros [= <-].
Qed.

Lemma step_load_outcome s e s' :
  step s e = Some s' → isLoadOutcome e = true → loading s = true.
Proof. destruct e; try done; cbn; by destruct (loading s). Qed.
End Steps.

(** * Runs *)

Section Runs.
Implicit Types (s : State) (n g : Node) (o : Object3D.t) (σ : Store) (e : Event)
  (es : list Event) (h : Host).

Lemma run_cons s e es s' :
  run s (e :: es) = Some s' ↔ ∃ s1, step s e = Some s1 ∧ run s1 es = Some s'.
Proof.
  cbn. destruct (step s e) as [s1|]; cbn; split.
  - intros H. by exists s1.
  - by intros (? & [= <-] & ?).
  - done.
  - by intros (? & ? & ?).
Qed.

Lemma run_snoc s es e s' :
  run s (es ++ [e]) = Some s' ↔ ∃ s1, run s es = Some s1 ∧ step s1 e = Some s'.
Proof.
  rewrite run_app. destruct (run s es) as [s1|]; cbn; split.
  - destruct (step s1 e) eqn:E; [|done]. cbn. intros [= <-]. by exists s1.
  - intros (? & [= <-] & ->). done.
  - done.
  - by intros (? & ? & ?).
Qed.

(** There are fifty asteroids, always. *)
Lemma run_asteroids_length h es s :
  run (initial h) es = Some s → length (asteroids s) = 50.
Proof.
  apply (run_invariant (λ s, length (asteroids s) = 50)); [|done].
  intros s1 e s2 H1 Hstep. rewrite (step_asteroids _ _ _ Hstep).
  destruct (isTick e); [|done]. by rewrite length_fmap.
Qed.

(** No asteroid coordinate is NaN when [Math.random] never answers NaN. *)
Lemma run_asteroids_not_nan h es s :
  (∀ k, is_nan (random h k) = false) →
  run (initial h) es = Some s →
  Forall (λ a, is_nan (Vector3.z (Object3D.position a)) = false) (asteroids s).
Proof.
  intros Hrandom.
  apply (run_invariant
           (λ s, Forall (λ a, is_nan (Vector3.z (Object3D.position a)) = false)
                   (asteroids s))).
  - intros s1 e s2 H1 Hstep. rewrite (step_asteroids _ _ _ Hstep).
    destruct (isTick e); [|done]. apply Forall_fmap. eapply Forall_impl; [exact H1|].
    intros a. apply moveAsteroid_not_nan.
  - unfold initial. cbn [asteroids]. apply Forall_fmap, Forall_forall.
    intros i _. cbn.
    eapply sub_finite_not_nan; [vm_compute; reflexivity|].
    eapply mul_finite_not_nan; [vm_compute; reflexivity|]. apply Hrandom.
Qed.

(** The [time] uniform is 1.0 with 0.05 added once per animation frame. *)
Lemma run_timeUniform_from s es s' :
  wellFormed s → run s es = Some s' →
  timeUniform s' =
    Nat.iter (count isTick es) (λ t, (t + 0.05)%float) <$> timeUniform s.
Proof.
  revert s. induction es as [|e es IH]; intros s Hwf.
  - intros [= <-]. by destruct (timeUniform s).
  - intros (s1 & Hstep & Hrun)%run_cons.
    rewrite (IH s1 (wellFormed_step _ _ _ Hwf Hstep) Hrun).
    rewrite (step_timeUniform _ _ _ Hwf Hstep), count_cons.
    destruct (isTick e); [|done]. destruct (timeUniform s) as [t|]; [|done].
    cbn [fmap option_fmap option_map Nat.add]. by rewrite Nat.iter_succ_r.
Qed.

Lemma run_timeUniform h es s :
  run (initial h) es = Some s → timeUniform s = Some (timeAfter (count isTick es)).
Proof.
  intros Hrun.
  by rewrite (run_timeUniform_from _ _ _ (wellFormed_initial h) Hrun).
Qed.

(** The palette index is the number of clicks, modulo three. *)
Lemma run_currentColorIndex_from s es s' :
  currentColorIndex s < 3 → run s es = Some s' →
  currentColorIndex s' = (currentColorIndex s + count isClick es) `mod` 3.
Proof.
  revert s. induction es as [|e es IH]; intros s Hs.
  - intros [= <-]. change (count isClick []) with 0.
    rewrite Nat.add_0_r. symmetry. by apply Nat.mod_small.
  - intros (s1 & Hstep & Hrun)%run_cons.
    apply step_currentColorIndex in Hstep. rewrite count_cons.
    rewrite (IH s1); [|destruct (isClick e); rewrite Hstep|done].
    + rewrite Hstep. destruct (isClick e); [|done].
      rewrite Nat.Div0.add_mod_idemp_l. f_equal. lia.
    + by apply Nat.mod_upper_bound.
    + done.
Qed.

Lemma run_currentColorIndex h es s :
  run (initial h) es = Some s → currentColorIndex s = count isClick es `mod` 3.
Proof.
  intros Hrun.
  by rewrite (run_currentColorIndex_from (initial h) es s (Nat.lt_0_succ 2) Hrun).
Qed.
(** Without a click every shader material keeps the silver colour. *)
Lemma step_silver s e s' :
  wellFormed s → isClick e = false → step s e = Some s' →
  Forall (λ m, ShaderMaterial.color m = silver) (materials s) →
  Forall (λ m, ShaderMaterial.color m = silver) (materials s').
Proof.
  intros ((m0 & Hm0 & Hc) & _) He Hstep Hall.
  destruct e; try done; cbn in Hstep.
  - injection Hstep as <-. rewrite materials_animate, (advanceTime_spec _ _ Hm0).
    by apply Forall_insert.
  - injection Hstep as <-.
    by destruct (keydown_frame key s) as (f & -> & _), (moveSpaceship_frame f s) as (-> & _).
  - by injection Hstep as <-.
  - destruct (loading s); [|done]. injection Hstep as <-.
    destruct (onLoad_spec (with_loading false s) gltf_scene m0 Hm0) as (n' & -> & _).
    cbn. apply Forall_app. split; [done|]. by apply Forall_replicate.
  - destruct (loading s); [|done]. by injection Hstep as <-.
Qed.

Lemma run_silver h es s :
  count isClick es = 0 → run (initial h) es = Some s →
  Forall (λ m, ShaderMaterial.color m = silver) (materials s).
Proof.
  intros Hcount Hrun.
  assert (∀ s0, wellFormed s0 →
            Forall (λ m, ShaderMaterial.color m = silver) (materials s0) →
            run s0 es = Some s →
            Forall (λ m, ShaderMaterial.color m = silver) (materials s)) as Hgen.
  { clear Hrun. induction es as [|e es IH]; intros s0 Hwf Hall.
    - by intros [= <-].
    - intros (s1 & Hstep & Hrun)%run_cons. rewrite count_cons in Hcount.
      destruct (isClick e) eqn:He; [done|].
      apply (IH Hcount s1); [by eapply wellFormed_step| |done].
      by eapply step_silver. }
  apply (Hgen (initial h)); [apply wellFormed_initial| |done].
  by repeat constructor.
Qed.

(** The colour uniform of a mesh of the spaceship, from the store. *)
Lemma colorUniform_mesh s ship o (P : Color.t → Prop) :
  wellFormed s → spaceship s = Some ship → o ∈ meshes ship →
  (∀ a m, 0 < a → materials s !! a = Some m → P (ShaderMaterial.color m)) →
  ∃ c, colorUniform (materials s) o = Some c ∧ P c.
Proof.
  intros (_ & _ & _ & Hn) Hship Ho HP. specialize (Hn ship Hship).
  rewrite Forall_forall in Hn.
  destruct (Hn (Object3D.material o)) as (a & Ha & Hpos & Hlt).
  { by apply list_elem_of_fmap_2. }
  destruct (lookup_lt_is_Some_2 _ _ Hlt) as [m Hm].
  exists (ShaderMaterial.color m). unfold colorUniform. rewrite Ha, Hm.
  split; [done|]. by eapply HP.
Qed.

(** The loader delivers at most one outcome. *)
Lemma run_loading_from s es s' :
  run s es = Some s' →
  (loading s = false → count isLoadOutcome es = 0 ∧ loading s' = false) ∧
  (loading s = true →
     count isLoadOutcome es ≤ 1 ∧
     loading s' = bool_decide (count isLoadOutcome es = 0)).
Proof.
  revert s. induction es as [|e es IH]; intros s.
  - intros [= <-]. change (count isLoadOutcome []) with 0.
    split; intros ->; (split; [lia|done]).
  - intros (s1 & Hstep & Hrun)%run_cons. rewrite count_cons.
    pose proof (step_loading _ _ _ Hstep) as Hl.
    pose proof (step_load_outcome _ _ _ Hstep) as Ho.
    destruct (IH s1 Hrun) as [IHf IHt].
    destruct (isLoadOutcome e) eqn:He; split; intros Hs.
    + specialize (Ho eq_refl). congruence.
    + destruct (IHf Hl) as [-> ->]. by split.
    + apply IHf. congruence.
    + apply IHt. congruence.
Qed.

Lemma run_loading h es s :
  run (initial h) es = Some s →
  count isLoadOutcome es ≤ 1 ∧ loading s = bool_decide (count isLoadOutcome es = 0).
Proof. intros Hrun. by apply (run_loading_from _ _ _ Hrun). Qed.

(** An event cannot remove the spaceship. *)
Lemma step_spaceship_absent s e s' :
  wellFormed s → step s e = Some s' → spaceship s' = None → spaceship s = None.
Proof.
  intros ((m0 & Hm0 & _) & _). destruct e; cbn; try (intros [= <-]); try done.
  - destruct (keydown_frame key s) as (f & -> & _). unfold moveSpaceship.
    by destruct (spaceship s) as [[o cs]|].
  - by destruct (click_frame s) as (_ & _ & -> & _).
  - destruct (loading s); [|done]. intros [= <-].
    by destruct (onLoad_spec (with_loading false s) gltf_scene m0 Hm0) as (n' & -> & _).
  - destruct (loading s); [|done]. by intros [= <-].
Qed.

(** What an event does to the camera. *)
Lemma step_camera s e s' :
  step s e = Some s' →
  camera s' =
    match e with
    | AnimationFrame => followSpaceship (spaceship s) (camera s)
    | Resize w h => Camera.with_aspect (w / h) (camera s)
    | _ => camera s
    end.
Proof.
  destruct e; cbn; try (intros [= <-]); try done.
  - by destruct (keydown_frame key s) as (f & -> & _),
         (moveSpaceship_frame f s) as (_ & _ & -> & _).
  - by destruct (click_frame s) as (_ & -> & _).
  - destruct (loading s); [|done]. intros [= <-].
    by destruct (onLoad_frame gltf_scene (with_loading false s)) as (_ & -> & _).
  - destruct (loading s); [|done]. by intros [= <-].
Qed.

(** While the spaceship is absent the camera rests where it was put. *)
Lemma run_camera_rest h es s :
  run (initial h) es = Some s → spaceship s = None →
  Camera.position (camera s) = Vector3.mk 0 0 10 ∧ Camera.lookAt (camera s) = None.
Proof.
  intros Hrun.
  cut (wellFormed s ∧
       (spaceship s = None →
        Camera.position (camera s) = Vector3.mk 0 0 10 ∧ Camera.lookAt (camera s) = None)).
  { intros [_ H]. exact H. }
  revert Hrun.
  apply (run_invariant
           (λ s, wellFormed s ∧
                 (spaceship s = None →
                  Camera.position (camera s) = Vector3.mk 0 0 10 ∧
                  Camera.lookAt (camera s) = None))).
  - intros s1 e s2 [Hwf H1] Hstep. split; [by eapply wellFormed_step|].
    intros H2. specialize (H1 (step_spaceship_absent _ _ _ Hwf Hstep H2)).
    rewrite (step_camera _ _ _ Hstep).
    destruct e; try done.
    by rewrite (step_spaceship_absent _ _ _ Hwf Hstep H2).
  - split; [apply wellFormed_initial|done].
Qed.

(** The spaceship stays at depth 0. *)
Lemma run_spaceship_depth h es s ship :
  run (initial h) es = Some s → spaceship s = Some ship →
  Vector3.z (Object3D.position (self_of ship)) = 0%float.
Proof.
  intros Hrun.
  cut (wellFormed s ∧
       ∀ ship, spaceship s = Some ship →
               Vector3.z (Object3D.position (self_of ship)) = 0%float).
  { intros [_ H]. apply H. }
  revert Hrun.
  apply (run_invariant
           (λ s, wellFormed s ∧
                 ∀ ship, spaceship s = Some ship →
                         Vector3.z (Object3D.position (self_of ship)) = 0%float)).
  - intros s1 e s2 [Hwf H1] Hstep. split; [by eapply wellFormed_step|].
    destruct Hwf as ((m0 & Hm0 & _) & _).
    destruct e; cbn in Hstep.
    + injection Hstep as <-. exact H1.
    + injection Hstep as <-. destruct (keydown_frame key s1) as (f & -> & Hf).
      unfold moveSpaceship. destruct (spaceship s1) as [[o cs]|] eqn:E; [|by rewrite E].
      intros ship' [= <-]. cbn. rewrite Hf. by apply (H1 (node o cs)).
    + injection Hstep as <-. by destruct (click_frame s1) as (_ & _ & -> & _).
    + injection Hstep as <-. exact H1.
    + destruct (loading s1); [|done]. injection Hstep as <-.
      destruct (onLoad_spec (with_loading false s1) gltf_scene m0 Hm0)
        as (n' & -> & _ & Hp & _).
      intros ship' [= <-]. by rewrite Hp.
    + destruct (loading s1); [|done]. injection Hstep as <-. exact H1.
  - split; [apply wellFormed_initial|done].
Qed.

(** Once the load has failed, the spaceship stays absent, the camera and
    the scene stay as they are, and the store changes by the advance of
    the [time] uniform only. *)
Lemma run_inert s es s' :
  loading s = false → spaceship s = None → run s es = Some s' →
  loading s' = false ∧ spaceship s' = None ∧
  Camera.position (camera s') = Camera.position (camera s) ∧
  Camera.lookAt (camera s') = Camera.lookAt (camera s) ∧
  scene s' = scene s ∧
  materials s' = Nat.iter (count isTick es) advanceTime (materials s).
Proof.
  revert s. induction es as [|e es IH]; intros s Hl Hs.
  - by intros [= <-].
  - intros (s1 & Hstep & Hrun)%run_cons. rewrite count_cons.
    destruct e; cbn in Hstep; rewrite ?Hl in Hstep; try done; injection Hstep as <-.
    + destruct (IH (animate s)) as (? & ? & -> & -> & -> & ->); try done.
      rewrite camera_animate, Hs, materials_animate.
      repeat split; try done. cbn [isTick Nat.add]. by rewrite Nat.iter_succ_r.
    + rewrite (keydown_absent key s Hs) in Hrun. by apply IH.
    + rewrite (click_absent s Hs) in Hrun.
      by destruct (IH (with_currentColorIndex _ s) Hl Hs Hrun) as (? & ? & -> & -> & -> & ->).
    + by destruct (IH (resize width height s) Hl Hs Hrun) as (? & ? & -> & -> & -> & ->).
Qed.
End Runs.

(** * The asteroid field *)

(** C2, as stated, fails: an asteroid at depth 10 does not exceed the
    threshold before the tick, and yet the tick sends it to -50 instead of
    adding 0.1, because the test follows the increment. *)
Lemma check_then_increment_fails :
  ∃ a a', asteroids (initial exampleHost) !! 0 = Some a ∧
          asteroids (animate (initial exampleHost)) !! 0 = Some a' ∧
          Vector3.z (Object3D.position a) = 10%float ∧
          (10 <? Vector3.z (Object3D.position a))%float = false ∧
          Vector3.z (Object3D.position a') = (-50)%float ∧
          Vector3.z (Object3D.position a')
            ≠ checkThenIncrement (Vector3.z (Object3D.position a)).
Proof.
  do 2 eexists. repeat split; try reflexivity.
  intros H. apply (f_equal (λ v, (v <? 0)%float)) in H. discriminate H.
Qed.

(** C2 (amended): for every i below 50 and every render tick, the depth of
    asteroid i after the tick is its prior depth plus 0.1, unless that sum
    exceeds 10, in which case the new depth is exactly -50. *)
Theorem every_asteroid_wraps_after_increment h es s i :
  run (initial h) es = Some s → i < 50 →
  ∃ a a', asteroids s !! i = Some a ∧
          asteroids (animate s) !! i = Some a' ∧
          let moved := (Vector3.z (Object3D.position a) + 0.1)%float in
          ((10 <? moved)%float = true →
           Vector3.z (Object3D.position a') = (-50)%float) ∧
          ((10 <? moved)%float = false →
           Vector3.z (Object3D.position a') = moved).
Proof.
  intros Hrun Hi.
  destruct (lookup_lt_is_Some_2 (asteroids s) i) as [a Ha].
  { by rewrite (run_asteroids_length _ _ _ Hrun). }
  exists a, (moveAsteroid a). split; [done|]. split.
  - by rewrite lookup_asteroids_animate, Ha.
  - rewrite moveAsteroid_z. cbn zeta. by split; intros ->.
Qed.

Lemma every_asteroid_wraps_after_increment_witness :
  ∃ a a', asteroids (animate (initial exampleHost)) !! 7 = Some a ∧
          asteroids (animate (animate (initial exampleHost))) !! 7 = Some a' ∧
          let moved := (Vector3.z (Object3D.position a) + 0.1)%float in
          ((10 <? moved)%float = true →
           Vector3.z (Object3D.position a') = (-50)%float) ∧
          ((10 <? moved)%float = false →
           Vector3.z (Object3D.position a') = moved).
Proof.
  apply (every_asteroid_wraps_after_increment exampleHost [AnimationFrame] _ 7).
  - reflexivity.
  - lia.
Defined.

(** C9: after a render tick every asteroid is at depth at most 10, also
    when it was created beyond 10, and the tick leaves its position.x and
    position.y as they were. *)
Theorem asteroid_depth_at_most_10 h es s i a :
  (∀ k, is_nan (random h k) = false) →
  run (initial h) es = Some s →
  asteroids s !! i = Some a →
  ∃ a', asteroids (animate s) !! i = Some a' ∧
        (Vector3.z (Object3D.position a') <=? 10)%float = true ∧
        Vector3.x (Object3D.position a') = Vector3.x (Object3D.position a) ∧
        Vector3.y (Object3D.position a') = Vector3.y (Object3D.position a).
Proof.
  intros Hrandom Hrun Ha. exists (moveAsteroid a).
  split; [by rewrite lookup_asteroids_animate, Ha|].
  split; [|apply moveAsteroid_xy].
  apply moveAsteroid_at_most_10.
  pose proof (run_asteroids_not_nan _ _ _ Hrandom Hrun) as Hall.
  rewrite Forall_forall in Hall. apply Hall. by eapply list_elem_of_lookup_2.
Qed.

Lemma asteroid_depth_at_most_10_witness :
  (10 <? Vector3.z (Object3D.position (newAsteroid farHost 3)))%float = true ∧
  ∃ a', asteroids (animate (initial farHost)) !! 3 = Some a' ∧
        (Vector3.z (Object3D.position a') <=? 10)%float = true ∧
        Vector3.x (Object3D.position a')
          = Vector3.x (Object3D.position (newAsteroid farHost 3)) ∧
        Vector3.y (Object3D.position a')
          = Vector3.y (Object3D.position (newAsteroid farHost 3)).
Proof.
  split; [reflexivity|].
  apply (asteroid_depth_at_most_10 farHost [] (initial farHost) 3).
  - intros k. reflexivity.
  - reflexivity.
  - reflexivity.
Defined.

(** * The shader clock *)

Section ShaderClock.
Local Open Scope Z_scope.

Lemma clockValue_one : clockValue 1.0%float (Z.to_pos (2 ^ 52)) (-52).
Proof. split; [reflexivity|]. split; [done|]. split; [done|]. left. lia. Qed.

Lemma clockValue_ltb t m e :
  clockValue t m e → (t <? clockLimit)%float = true ↔ e ≤ -4.
Proof.
  intros (Ht & Hm & He & Hlim). rewrite FloatAxioms.ltb_spec, Ht.
  change (Prim2SF clockLimit) with (S754_finite false (Z.to_pos (2 ^ 52)) (-3)).
  unfold SFltb. rewrite SFcompare_finite.
  change (Z.pos (Z.to_pos (2 ^ 52))) with (2 ^ 52).
  destruct (Z.compare_spec e (-3)) as [->|?|?]; [|split; [lia|done]|lia].
  destruct (Z.compare_spec (Z.pos m) (2 ^ 52)); split; try done; lia.
Qed.

Lemma clockValue_bounds t m e :
  clockValue t m e →
  (1 <=? t)%float = true ∧ (t <=? clockLimit)%float = true.
Proof.
  intros (Ht & Hm & He & Hlim). rewrite !FloatAxioms.leb_spec, Ht.
  change (Prim2SF clockLimit) with (S754_finite false (Z.to_pos (2 ^ 52)) (-3)).
  change (Prim2SF 1) with (S754_finite false (Z.to_pos (2 ^ 52)) (-52)).
  unfold SFleb. rewrite !SFcompare_finite.
  change (Z.pos (Z.to_pos (2 ^ 52))) with (2 ^ 52). split.
  - destruct (Z.compare_spec (-52) e) as [<-|?|?]; [|done|lia].
    destruct (Z.compare_spec (2 ^ 52) (Z.pos m)); [done|done|lia].
  - destruct (Z.compare_spec e (-3)) as [->|?|?]; [|done|lia].
    destruct (Z.compare_spec (Z.pos m) (2 ^ 52)); [done|done|lia].
Qed.

Lemma clockValue_limit t m e : clockValue t m e → e = -3 → t = clockLimit.
Proof.
  intros (Ht & Hm & He & Hlim) ->. apply Prim2SF_inj. rewrite Ht.
  destruct Hlim as [?|[_ Hm52]]; [lia|].
  assert (m = Z.to_pos (2 ^ 52)) as -> by lia. reflexivity.
Qed.

(** A tick below the limit. *)
Lemma clockValue_step t m e :
  clockValue t m e → e ≤ -4 →
  ∃ m' e', clockValue (t + 0.05)%float m' e' ∧
    ((e' = e ∧ Z.pos m < Z.pos m') ∨ e < e') ∧
    Z.pos m' * 2 ^ (e' + 57) ≤ Z.pos m * 2 ^ (e + 57) + 2 ^ 55.
Proof.
  intros (Ht & Hm & He & Hlim) He4.
  destruct (SFadd_increment m e Hm ltac:(lia)) as (m' & e' & Hadd & Hm' & Hup & Hlim' & HV).
  exists m', e'. split; [|done].
  split; [|split; [done|split; [lia|done]]].
  by rewrite add_spec, Ht, Prim2SF_increment.
Qed.

Lemma clockValue_increases t m e :
  clockValue t m e → e ≤ -4 → (t <? t + 0.05)%float = true.
Proof.
  intros Hv He4. destruct (clockValue_step _ _ _ Hv He4) as (m' & e' & Hv' & Hup & _).
  destruct Hv as (Ht & _). destruct Hv' as (Ht' & _).
  rewrite FloatAxioms.ltb_spec, Ht, Ht'. unfold SFltb. rewrite SFcompare_finite.
  destruct Hup as [[-> Hlt]|Hlt].
  - rewrite Z.compare_refl. by apply Z.compare_lt_iff in Hlt as ->.
  - by apply Z.compare_lt_iff in Hlt as ->.
Qed.

Lemma clockLimit_stalls : (clockLimit + 0.05)%float = clockLimit.
Proof. reflexivity. Qed.

(** The clock after [n] ticks, with a bound on its value scaled by
    [2^57]: a tick adds at most 0.25. *)
Lemma timeAfter_clockValue n :
  ∃ m e, clockValue (timeAfter n) m e ∧
         Z.pos m * 2 ^ (e + 57) ≤ 2 ^ 57 + Z.of_nat n * 2 ^ 55.
Proof.
  induction n as [|n (m & e & Hv & HV)].
  - exists (Z.to_pos (2 ^ 52)), (-52). split; [apply clockValue_one|]. done.
  - unfold timeAfter. rewrite Nat.iter_succ. fold (timeAfter n).
    destruct (Z_le_gt_dec e (-4)) as [He4|He3].
    + destruct (clockValue_step _ _ _ Hv He4) as (m' & e' & Hv' & _ & HV').
      exists m', e'. split; [done|]. lia.
    + assert (e = -3) as He by (destruct Hv as (_ & _ & _ & [?|[? _]]); lia).
      rewrite (clockValue_limit _ _ _ Hv He), clockLimit_stalls.
      rewrite <- (clockValue_limit _ _ _ Hv He).
      exists m, e. split; [done|]. lia.
Qed.

Lemma timeAfter_below n :
  Z.of_nat n < 2 ^ 50 → (timeAfter n <? clockLimit)%float = true.
Proof.
  intros Hn. destruct (timeAfter_clockValue n) as (m & e & Hv & HV).
  apply (clockValue_ltb _ _ _ Hv).
  destruct Hv as (_ & _ & _ & [?|[-> Hm]]); [done|]. exfalso.
  rewrite Hm in HV. change (-3 + 57) with 54 in HV. lia.
Qed.

(** Below the limit each tick comes closer to it by one binary64 number
    at least, so that the clock reaches the limit. *)
Lemma clock_reaches_limit_from (k : nat) :
  ∀ t m e, clockValue t m e →
    49 * 2 ^ 52 - ((e + 52) * 2 ^ 52 + (Z.pos m - 2 ^ 52)) ≤ Z.of_nat k →
    ∃ j, Nat.iter j (λ t, (t + 0.05)%float) t = clockLimit.
Proof.
  induction k as [|k IH]; intros t m e Hv Hk.
  - exists 0%nat. apply (clockValue_limit _ _ _ Hv).
    destruct Hv as (_ & Hm & He & [?|[? _]]); [nia|done].
  - destruct (Z_le_gt_dec e (-4)) as [He4|He3].
    + destruct (clockValue_step _ _ _ Hv He4) as (m' & e' & Hv' & Hup & _).
      destruct (IH _ _ _ Hv') as [j Hj].
      { destruct Hv as (_ & Hm & _). destruct Hv' as (_ & Hm' & _).
        destruct Hup as [[-> Hlt]|Hlt]; nia. }
      exists (S j). by rewrite Nat.iter_succ_r.
    + exists 0%nat. apply (clockValue_limit _ _ _ Hv).
      destruct Hv as (_ & _ & _ & [?|[? _]]); lia.
Qed.

Lemma clock_reaches_limit : ∃ n, timeAfter n = clockLimit.
Proof.
  apply (clock_reaches_limit_from (Z.to_nat (49 * 2 ^ 52)) _ _ _ clockValue_one). lia.
Qed.

(** A run of [n] ticks and nothing else. *)
Lemma run_ticks s (n : nat) :
  ∃ s', run s (replicate n AnimationFrame) = Some s'.
Proof.
  revert s. induction n as [|n IH]; intros s; [by exists s|].
  destruct (IH (animate s)) as [s' Hs']. by exists s'.
Qed.

Lemma count_ticks (n : nat) : count isTick (replicate n AnimationFrame) = n.
Proof.
  induction n as [|n IH]; [done|].
  change (replicate (S n) AnimationFrame) with (AnimationFrame :: replicate n AnimationFrame).
  rewrite count_cons, IH. done.
Qed.
End ShaderClock.

(** C3, as stated, fails: binary64 sums are rounded, and after three
    ticks the uniform is 1.1500000000000001, above 1.0 + 0.05 * 3; nor is
    the increase of the second tick, measured by subtraction, 0.05.  Nor
    does every tick increase the uniform: the ticks take it to 2^49, and
    there a tick leaves it as it is. *)
Lemma closed_form_time_fails :
  (∃ s2 s3 t2 t3,
     run (initial exampleHost) [AnimationFrame; AnimationFrame] = Some s2 ∧
     step s2 AnimationFrame = Some s3 ∧
     timeUniform s2 = Some t2 ∧ timeUniform s3 = Some t3 ∧
     t3 = 1.1500000000000001%float ∧
     (1.0 + 0.05 * 3 <? t3)%float = true ∧
     t3 ≠ (1.0 + 0.05 * 3)%float ∧
     (t3 - t2)%float ≠ 0.05%float) ∧
  (∃ es s s',
     run (initial exampleHost) es = Some s ∧
     step s AnimationFrame = Some s' ∧
     timeUniform s = Some clockLimit ∧ timeUniform s' = Some clockLimit).
Proof.
  split.
  - do 4 eexists. repeat split; try reflexivity.
    + intros H.
      apply (f_equal (λ v, (1.0 + 0.05 * 3 <? v)%float)) in H. discriminate H.
    + intros H. apply (f_equal (λ v, (0.05 <? v)%float)) in H. discriminate H.
  - destruct clock_reaches_limit as [n Hn].
    destruct (run_ticks (initial exampleHost) n) as [s Hrun].
    exists (replicate n AnimationFrame), s, (animate s).
    split; [exact Hrun|]. split; [reflexivity|].
    pose proof (run_timeUniform _ _ _ Hrun) as Ht. rewrite count_ticks, Hn in Ht.
    split; [exact Ht|].
    assert (run (initial exampleHost) (replicate n AnimationFrame ++ [AnimationFrame])
            = Some (animate s)) as Hrun'.
    { apply run_snoc. by exists s. }
    rewrite (run_timeUniform _ _ _ Hrun'), count_app, count_ticks.
    change (count isTick [AnimationFrame]) with 1.
    rewrite Nat.add_1_r. unfold timeAfter. rewrite Nat.iter_succ.
    fold (timeAfter n). by rewrite Hn, clockLimit_stalls.
Qed.

(** C3 (amended): the time uniform is 1.0 when the material is created;
    a render tick replaces its value t by the binary64 sum t + 0.05 and no
    other event writes it, so after n ticks it is 1.0 with 0.05 added n
    times, each sum rounded.  It stays from 1.0 to 2^49; a tick makes it
    strictly larger as long as it is below 2^49, which it is after fewer
    than 2^50 ticks, and leaves it unchanged once it is 2^49. *)
Theorem time_uniform_after_ticks h es s :
  run (initial h) es = Some s →
  let n := count isTick es in
  timeUniform (initial h) = Some 1.0%float ∧
  timeUniform s = Some (timeAfter n) ∧
  timeUniform (animate s) = Some (timeAfter n + 0.05)%float ∧
  (1 <=? timeAfter n)%float = true ∧
  (timeAfter n <=? clockLimit)%float = true ∧
  ((timeAfter n <? clockLimit)%float = true →
   (timeAfter n <? timeAfter n + 0.05)%float = true) ∧
  ((timeAfter n <? clockLimit)%float = false →
   timeAfter n = clockLimit ∧ (timeAfter n + 0.05)%float = timeAfter n) ∧
  ((Z.of_nat n < 2 ^ 50)%Z → (timeAfter n <? clockLimit)%float = true).
Proof.
  intros Hrun n. pose proof (run_timeUniform _ _ _ Hrun) as Ht.
  split; [done|]. split; [done|]. split.
  { assert (run (initial h) (es ++ [AnimationFrame]) = Some (animate s)) as Hrun'.
    { apply run_snoc. by exists s. }
    rewrite (run_timeUniform _ _ _ Hrun'), count_app.
    change (count isTick [AnimationFrame]) with 1.
    by rewrite Nat.add_1_r. }
  destruct (timeAfter_clockValue n) as (m & e & Hv & _).
  destruct (clockValue_bounds _ _ _ Hv) as [Hlo Hhi].
  split; [exact Hlo|]. split; [exact Hhi|]. split; [|split].
  - intros Hlt. apply (clockValue_increases _ _ _ Hv).
    by apply (clockValue_ltb _ _ _ Hv).
  - intros Hge. assert (timeAfter n = clockLimit) as Hn.
    { apply (clockValue_limit _ _ _ Hv).
      destruct (Z_le_gt_dec e (-4)) as [He4|He3].
      - apply (clockValue_ltb _ _ _ Hv) in He4. congruence.
      - destruct Hv as (_ & _ & _ & [?|[? _]]); lia. }
    split; [exact Hn|]. by rewrite Hn, clockLimit_stalls.
  - apply timeAfter_below.
Qed.

Lemma time_uniform_after_ticks_witness :
  timeUniform (animate (click (animate (initial exampleHost))))
    = Some (timeAfter 2) ∧
  (timeAfter 2 <? timeAfter 2 + 0.05)%float = true.
Proof.
  destruct (time_uniform_after_ticks exampleHost
              [AnimationFrame; Click; AnimationFrame]
              (animate (click (animate (initial exampleHost)))) eq_refl)
    as (_ & H2 & _ & _ & _ & H6 & _).
  split; [exact H2|]. apply H6. reflexivity.
Defined.

(** * The palette *)

(** C4: the palette index depends on the number of clicks only: after n
    clicks it is n mod 3 in the palette silver 0xc0c0c0, ash, white, back
    at silver after three clicks; with no click the colour uniform of
    every mesh of the loaded spaceship is the default silver. *)
Theorem palette_index_counts_clicks h es s :
  run (initial h) es = Some s →
  let n := count isClick es in
  colors = [Color.mk 0xc0c0c0; ash; white] ∧
  currentColorIndex s = n `mod` 3 ∧
  (n `mod` 3 = 0 → colors !! currentColorIndex s = Some (Color.mk 0xc0c0c0)) ∧
  (n = 0 → ∀ ship o, spaceship s = Some ship → o ∈ meshes ship →
           colorUniform (materials s) o = Some (Color.mk 0xc0c0c0)).
Proof.
  intros Hrun n. pose proof (run_currentColorIndex _ _ _ Hrun) as Hi.
  split; [done|]. split; [done|]. split.
  - intros Hn. fold n in Hi. by rewrite Hi, Hn.
  - intros Hn ship o Hship Ho.
    pose proof (run_silver _ _ _ Hn Hrun) as Hall.
    destruct (colorUniform_mesh s ship o (λ c, c = silver)) as (c & -> & ->);
      try done; [by eapply wellFormed_run|].
    intros a m _ Hm. rewrite Forall_forall in Hall. apply Hall.
    by eapply list_elem_of_lookup_2.
Qed.

Lemma palette_index_counts_clicks_witness :
  currentColorIndex
    (click (click (click (keydown "ArrowUp" (click (start exampleHost)))))) = 1 ∧
  ∀ ship o, spaceship loadedState = Some ship → o ∈ meshes ship →
            colorUniform (materials loadedState) o = Some (Color.mk 0xc0c0c0).
Proof.
  assert (run (initial exampleHost)
            [AnimationFrame; Click; KeyDown "ArrowUp"; Click; Click; Click]
          = Some (click (click (click (keydown "ArrowUp" (click (start exampleHost)))))))
    as Hclicks by (vm_compute; reflexivity).
  assert (run (initial exampleHost) [AnimationFrame; Loaded exampleModel]
          = Some loadedState) as Hload by (vm_compute; reflexivity).
  split.
  - exact (proj1 (proj2 (palette_index_counts_clicks _ _ _ Hclicks))).
  - exact (proj2 (proj2 (proj2 (palette_index_counts_clicks _ _ _ Hload))) eq_refl).
Defined.

(** A click with the spaceship present writes the palette colour of the
    new index into the material of every mesh. *)
Lemma click_paints_every_mesh s ship o :
  wellFormed s → spaceship s = Some ship → o ∈ meshes ship →
  colorUniform (materials (click s)) o = colors !! currentColorIndex (click s) ∧
  is_Some (colors !! currentColorIndex (click s)).
Proof.
  intros Hwf Hship Ho. pose proof Hwf as (_ & _ & _ & Hn).
  specialize (Hn ship Hship). rewrite Forall_forall in Hn.
  destruct (Hn (Object3D.material o)) as (a & Ha & Hpos & Hlt).
  { by apply list_elem_of_fmap_2. }
  destruct (click_present s ship Hship) as (c & σ' & Hc & -> & _ & Hlk).
  cbn [currentColorIndex materials with_console with_materials with_currentColorIndex].
  rewrite Hc. split; [|done]. unfold colorUniform. rewrite Ha, Hlk.
  rewrite decide_True.
  - destruct (lookup_lt_is_Some_2 _ _ Hlt) as [m ->]. done.
  - rewrite <- Ha. by apply list_elem_of_fmap_2.
Qed.

(** * The camera and the keyboard *)

(** C5: on a render tick with the spaceship present the camera is put at
    the spaceship's x and y and at its z plus 10, and looks at the
    spaceship's position; with the spaceship absent the tick leaves the
    camera as it is, at (0, 0, 10) where the script put it. *)
Theorem camera_follows_spaceship h es s :
  run (initial h) es = Some s →
  match spaceship s with
  | Some ship =>
      let p := Object3D.position (self_of ship) in
      let eye := Vector3.mk (Vector3.x p) (Vector3.y p) (Vector3.z p + 10) in
      Camera.position (camera (animate s)) = eye ∧
      Camera.lookAt (camera (animate s)) = Some (eye, p)
  | None =>
      camera (animate s) = camera s ∧
      Camera.position (camera s) = Vector3.mk 0 0 10 ∧
      Camera.lookAt (camera s) = None
  end.
Proof.
  intros Hrun. rewrite camera_animate.
  destruct (spaceship s) as [ship|] eqn:E; [done|].
  split; [done|]. by apply (run_camera_rest h es).
Qed.

Lemma camera_follows_spaceship_witness :
  Camera.position
    (camera (animate (keydown "ArrowUp" (keydown "ArrowLeft" loadedState))))
    = Vector3.mk (-0.5) 0.5 10 ∧
  Camera.lookAt
    (camera (animate (keydown "ArrowUp" (keydown "ArrowLeft" loadedState))))
    = Some (Vector3.mk (-0.5) 0.5 10, Vector3.mk (-0.5) 0.5 0).
Proof.
  assert (run (initial exampleHost)
            [AnimationFrame; Loaded exampleModel; KeyDown "ArrowLeft"; KeyDown "ArrowUp"]
          = Some (keydown "ArrowUp" (keydown "ArrowLeft" loadedState)))
    as Hrun by (vm_compute; reflexivity).
  pose proof (camera_follows_spaceship _ _ _ Hrun) as H.
  vm_compute in H. vm_compute. exact H.
Defined.

(** C6: with the spaceship present, ArrowUp adds 0.5 to its position.y,
    ArrowDown adds -0.5 to it, ArrowLeft adds -0.5 to position.x and
    ArrowRight adds 0.5 to it, any other key does nothing, and nothing
    else changes; with the spaceship absent a key press changes nothing. *)
Theorem keydown_moves_only_the_spaceship s key :
  (spaceship s = None → keydown key s = s) ∧
  (∀ o cs, spaceship s = Some (node o cs) →
     let p := Object3D.position o in
     let moved p' :=
       with_spaceship (Some (node (Object3D.with_position p' o) cs)) s in
     keydown "ArrowUp" s = moved (Vector3.with_y (Vector3.y p + 0.5) p) ∧
     keydown "ArrowDown" s = moved (Vector3.with_y (Vector3.y p + -0.5) p) ∧
     keydown "ArrowLeft" s = moved (Vector3.with_x (Vector3.x p + -0.5) p) ∧
     keydown "ArrowRight" s = moved (Vector3.with_x (Vector3.x p + 0.5) p) ∧
     (key ∉ ["ArrowUp"; "ArrowDown"; "ArrowLeft"; "ArrowRight"]%string →
      keydown key s = s)).
Proof.
  split; [apply keydown_absent|]. intros o cs E.
  cbn zeta. repeat split.
  1-4: unfold keydown; rewrite E; cbn [String.eqb Ascii.eqb Bool.eqb];
       rewrite (moveSpaceship_present _ s o cs E), ?sub_add_opp; reflexivity.
  intros Hkey. apply (keydown_other key s); intros ->; apply Hkey.
  - by left.
  - right. by left.
  - do 2 right. by left.
  - do 3 right. by left.
Qed.

Lemma keydown_moves_only_the_spaceship_witness :
  ∃ o cs, spaceship loadedState = Some (node o cs) ∧
    keydown "ArrowDown" loadedState =
      with_spaceship
        (Some (node (Object3D.with_position (Vector3.mk 0 (-0.5) 0) o) cs))
        loadedState ∧
    keydown "a" loadedState = loadedState ∧
    keydown "ArrowDown" (initial exampleHost) = initial exampleHost.
Proof.
  do 2 eexists. split; [reflexivity|].
  pose proof (proj2 (keydown_moves_only_the_spaceship loadedState "a") _ _ eq_refl)
    as (_ & Hdown & _ & _ & Hother).
  split; [exact Hdown|]. split.
  - apply Hother.
    intros H. repeat (apply elem_of_cons in H as [H|H]; [discriminate H|]).
    by apply elem_of_nil in H.
  - exact (proj1 (keydown_moves_only_the_spaceship (initial exampleHost) "ArrowDown")
             eq_refl).
Defined.

(** C10: the load puts the spaceship at depth 0 and no event changes
    that depth afterwards, so on every later tick the camera is at depth
    exactly 10. *)
Theorem spaceship_depth_stays_zero h es s ship :
  run (initial h) es = Some s → spaceship s = Some ship →
  Vector3.z (Object3D.position (self_of ship)) = 0%float ∧
  Vector3.z (Camera.position (camera (animate s))) = 10%float.
Proof.
  intros Hrun Hship. pose proof (run_spaceship_depth _ _ _ _ Hrun Hship) as Hz.
  split; [done|]. rewrite camera_animate, Hship. cbn. by rewrite Hz.
Qed.

Lemma spaceship_depth_stays_zero_witness :
  ∃ ship,
    spaceship (resize 640 480 (keydown "ArrowDown" (click (animate loadedState))))
      = Some ship ∧
    Vector3.z (Object3D.position (self_of ship)) = 0%float ∧
    Vector3.z (Camera.position
                 (camera (animate (resize 640 480
                    (keydown "ArrowDown" (click (animate loadedState)))))))
      = 10%float.
Proof.
  assert (run (initial exampleHost)
            [AnimationFrame; Loaded exampleModel; AnimationFrame; Click;
             KeyDown "ArrowDown"; Resize 640 480]
          = Some (resize 640 480 (keydown "ArrowDown" (click (animate loadedState)))))
    as Hrun by (vm_compute; reflexivity).
  eexists. split; [vm_compute; reflexivity|].
  apply (spaceship_depth_stays_zero _ _ _ _ Hrun).
  vm_compute; reflexivity.
Defined.

(** * The model load *)

(** C7, as stated, fails: a click before the load advances the palette
    index to 1, and yet the colour uniform of every mesh of the freshly
    loaded spaceship is the silver 0xc0c0c0: the load clones
    [spaceshipShaderMaterial], which no click recolours, and does not read
    the palette index. *)
Lemma click_before_load_keeps_silver :
  ∃ s ship,
    run (initial exampleHost) [AnimationFrame; Click; Loaded exampleModel] = Some s ∧
    currentColorIndex s = 1 ∧
    colors !! currentColorIndex s = Some (Color.mk 0xb0b0b0) ∧
    spaceship s = Some ship ∧
    length (meshes ship) = 2 ∧
    Forall (λ o, colorUniform (materials s) o = Some (Color.mk 0xc0c0c0)) (meshes ship).
Proof.
  do 2 eexists. split; [vm_compute; reflexivity|].
  split; [reflexivity|]. split; [reflexivity|].
  split; [vm_compute; reflexivity|]. split; [reflexivity|].
  vm_compute. repeat (constructor; [reflexivity|]). constructor.
Qed.

(** C7 (amended): each click before the load completes advances the
    palette index, modulo three, and changes nothing else; immediately
    after the load the colour uniform of every mesh is the default silver
    0xc0c0c0 all the same, whatever the index has become. *)
Theorem load_after_clicks_is_silver h es g s :
  run (initial h) (es ++ [Loaded g]) = Some s →
  currentColorIndex s = count isClick es `mod` 3 ∧
  (∃ ship, spaceship s = Some ship ∧
     Object3D.isMesh <$> objects ship = Object3D.isMesh <$> objects g ∧
     ∀ o, o ∈ meshes ship →
          colorUniform (materials s) o = Some (Color.mk 0xc0c0c0)) ∧
  (∀ es1 es2 s1, es = es1 ++ Click :: es2 → run (initial h) es1 = Some s1 →
     spaceship s1 = None ∧
     step s1 Click =
       Some (with_currentColorIndex ((currentColorIndex s1 + 1) `mod` 3) s1)).
Proof.
  intros Hrun. pose proof Hrun as (s0 & Hrun0 & Hstep)%run_snoc.
  pose proof (wellFormed_run _ _ _ Hrun0) as Hwf0.
  pose proof Hwf0 as ((m0 & Hm0 & Hc0) & _ & Hl0 & _).
  cbn in Hstep. destruct (loading s0) eqn:Hld; [|done]. injection Hstep as <-.
  split; [|split].
  - rewrite (run_currentColorIndex _ _ _ Hrun), count_app.
    change (count isClick [Loaded g]) with 0. by rewrite Nat.add_0_r.
  - destruct (onLoad_spec (with_loading false s0) g m0 Hm0)
      as (ship & -> & _ & _ & Hshape & Hmat).
    exists ship. split; [done|]. split; [done|].
    intros o Ho. cbn [materials with_console with_materials with_loading].
    assert (Object3D.material o ∈ Object3D.material <$> meshes ship) as Hin
      by (apply list_elem_of_fmap_2; exact Ho).
    rewrite Hmat in Hin. apply list_elem_of_fmap in Hin as (a & Ha & Hseq).
    apply elem_of_seq in Hseq. cbn [materials with_loading] in Hseq.
    unfold colorUniform. rewrite Ha.
    rewrite lookup_app_r by lia. rewrite lookup_replicate_2 by lia.
    cbn. by rewrite Hc0.
  - intros es1 es2 s1 -> Hrun1.
    rewrite run_app, Hrun1 in Hrun0. cbn [mbind option_bind] in Hrun0.
    assert (loading s1 = true) as Hl1.
    { destruct (loading s1) eqn:E; [done|].
      destruct (run_loading_from _ _ _ Hrun0) as [Hf _].
      destruct (Hf E) as [_ Hf']. congruence. }
    pose proof (wellFormed_run _ _ _ Hrun1) as (_ & _ & Hn1 & _).
    specialize (Hn1 Hl1). split; [done|]. cbn. by rewrite (click_absent s1 Hn1).
Qed.

Lemma load_after_clicks_is_silver_witness :
  currentColorIndex (onLoad exampleModel (with_loading false (click (click (start exampleHost)))))
    = 2 ∧
  ∃ ship,
    spaceship (onLoad exampleModel (with_loading false (click (click (start exampleHost)))))
      = Some ship ∧
    ∀ o, o ∈ meshes ship →
         colorUniform
           (materials (onLoad exampleModel
                         (with_loading false (click (click (start exampleHost)))))) o
           = Some (Color.mk 0xc0c0c0).
Proof.
  assert (run (initial exampleHost) ([AnimationFrame; Click; Click] ++ [Loaded exampleModel])
          = Some (onLoad exampleModel (with_loading false (click (click (start exampleHost))))))
    as Hrun by (vm_compute; reflexivity).
  destruct (load_after_clicks_is_silver _ _ _ _ Hrun) as (Hi & (ship & Hs & _ & Hc) & _).
  split; [exact Hi|]. by exists ship.
Defined.

(** C8: one model request is under way from the start and the loader
    answers it at most once.  If it succeeds, the subtree becomes the
    spaceship, scaled by 2, at the origin and in the scene, and every mesh
    of it gets a clone of [spaceshipShaderMaterial] of its own, freshly
    allocated; if it fails, the error is reported, the spaceship stays
    absent for ever, the camera and the scene stay as they are, and the
    materials change by the advance of the time uniform only. *)
Theorem model_load_happens_once h es s :
  run (initial h) es = Some s →
  loading (initial h) = true ∧
  count isLoadOutcome es ≤ 1 ∧
  loading s = bool_decide (count isLoadOutcome es = 0) ∧
  (loading s = true →
   (∀ g, ∃ s' ship m0,
      step s (Loaded g) = Some s' ∧
      materials s !! spaceshipShaderMaterial = Some m0 ∧
      spaceship s' = Some ship ∧
      Object3D.scale (self_of ship) = Vector3.mk 2 2 2 ∧
      Object3D.position (self_of ship) = Vector3.mk 0 0 0 ∧
      spaceshipObject ∈ scene s' ∧
      Object3D.isMesh <$> objects ship = Object3D.isMesh <$> objects g ∧
      materials s' =
        materials s ++ replicate (length (meshes g))
                         (ShaderMaterial.with_needsUpdate true (ShaderMaterial.clone m0)) ∧
      Object3D.material <$> meshes ship
        = shaderMaterialAt <$> seq (length (materials s)) (length (meshes g)) ∧
      NoDup (Object3D.material <$> meshes ship) ∧
      (shaderMaterialAt spaceshipShaderMaterial ∉ Object3D.material <$> meshes ship) ∧
      (∀ o, o ∈ meshes ship →
         ∃ a, Object3D.material o = shaderMaterialAt a ∧
              length (materials s) ≤ a ∧
              materials s' !! a =
                Some (ShaderMaterial.with_needsUpdate true (ShaderMaterial.clone m0)))) ∧
   (∀ err, ∃ s',
      step s (LoadFailed err) = Some s' ∧
      console s' = console s ++ [console_error "Error loading spaceship:" err] ∧
      ∀ es' s'', run s' es' = Some s'' →
        spaceship s'' = None ∧
        Camera.position (camera s'') = Camera.position (camera s) ∧
        Camera.lookAt (camera s'') = Camera.lookAt (camera s) ∧
        scene s'' = scene s ∧
        materials s'' = Nat.iter (count isTick es') advanceTime (materials s))).
Proof.
  intros Hrun. split; [done|].
  destruct (run_loading _ _ _ Hrun) as [Hle Hl]. split; [done|]. split; [done|].
  intros Hld. pose proof (wellFormed_run _ _ _ Hrun) as Hwf.
  pose proof Hwf as ((m0 & Hm0 & _) & _ & Hn & _). specialize (Hn Hld).
  split.
  - intros g. cbn [step]. rewrite Hld.
    destruct (onLoad_spec (with_loading false s) g m0 Hm0)
      as (ship & Hs' & Hscale & Hpos & Hshape & Hmat).
    cbn [materials with_loading] in Hs', Hmat.
    exists (onLoad g (with_loading false s)), ship, m0. rewrite Hs'.
    cbn [spaceship scene materials with_console with_materials with_spaceship
         with_scene with_loading].
    repeat (split; [done|]). split; [apply elem_of_app; right; by left|].
    repeat (split; [done|]). split; [|split].
    + rewrite Hmat. apply NoDup_fmap_2; [by intros a b [= ->]|apply NoDup_seq].
    + rewrite Hmat. intros (a & [= <-] & Ha%elem_of_seq)%list_elem_of_fmap.
      apply lookup_lt_Some in Hm0. unfold spaceshipShaderMaterial in *. lia.
    + intros o Ho.
      assert (Object3D.material o ∈ Object3D.material <$> meshes ship) as Hin
        by (apply list_elem_of_fmap_2; exact Ho).
      rewrite Hmat in Hin. apply list_elem_of_fmap in Hin as (a & Ha & Hseq).
      apply elem_of_seq in Hseq. exists a. split; [done|]. split; [lia|].
      rewrite lookup_app_r by lia. by rewrite lookup_replicate_2 by lia.
  - intros err. cbn [step]. rewrite Hld.
    exists (onError err (with_loading false s)). split; [done|]. split; [done|].
    intros es' s'' Hrun'.
    by destruct (run_inert (onError err (with_loading false s)) es' s'' eq_refl Hn Hrun')
      as (_ & ? & ? & ? & ? & ?).
Qed.

Lemma model_load_happens_once_witness :
  (∃ s' ship,
     step (start exampleHost) (Loaded exampleModel) = Some s' ∧
     spaceship s' = Some ship ∧
     Object3D.isMesh <$> objects ship = [false; true; true; false] ∧
     Object3D.material <$> meshes ship = [shaderMaterialAt 1; shaderMaterialAt 2] ∧
     length (materials s') = 3) ∧
  (∃ s',
     step (start exampleHost) (LoadFailed "404") = Some s' ∧
     console s' = [console_error "Error loading spaceship:" "404"] ∧
     ∀ es' s'', run s' es' = Some s'' → spaceship s'' = None).
Proof.
  assert (run (initial exampleHost) [AnimationFrame] = Some (start exampleHost))
    as Hrun by reflexivity.
  destruct (model_load_happens_once _ _ _ Hrun) as (_ & _ & _ & H).
  destruct (H eq_refl) as [Hok Hfail]. split.
  - destruct (Hok exampleModel)
      as (s' & ship & m0 & Hs' & _ & Hship & _ & _ & _ & Hshape & Hσ & Hmat & _).
    exists s', ship. split; [exact Hs'|]. split; [exact Hship|].
    split; [exact Hshape|]. split; [exact Hmat|]. rewrite Hσ. reflexivity.
  - destruct (Hfail "404"%string) as (s' & Hs' & Hcon & Hinert).
    exists s'. split; [exact Hs'|]. split; [exact Hcon|].
    intros es' s'' Hrun'. exact (proj1 (Hinert es' s'' Hrun')).
Defined.


(** * Further properties of the script *)

Section Further.
Implicit Types (s : State) (n g : Node) (o : Object3D.t) (σ : Store) (e : Event)
  (es : list Event) (h : Host).

(** Induction along the runs from the initial state, the run so far at
    hand. *)
Lemma run_prefix_ind h (P : list Event → State → Prop) :
  P [] (initial h) →
  (∀ es s e s', run (initial h) es = Some s → P es s →
                step s e = Some s' → P (es ++ [e]) s') →
  ∀ es s, run (initial h) es = Some s → P es s.
Proof.
  intros Hnil Hsnoc es. induction es as [|e es IH] using rev_ind; intros s.
  - by intros [= <-].
  - intros (s1 & Hrun & Hstep)%run_snoc. eauto.
Qed.

Lemma count_snoc kind es e :
  count kind (es ++ [e]) = count kind es + (if kind e then 1 else 0).
Proof.
  rewrite count_app. f_equal. rewrite count_cons.
  change (count kind []) with 0. lia.
Qed.

Lemma moveSpaceship_rest f s :
  stars (moveSpaceship f s) = stars s ∧
  console (moveSpaceship f s) = console s ∧
  rendererSize (moveSpaceship f s) = rendererSize s ∧
  frames (moveSpaceship f s) = frames s.
Proof. unfold moveSpaceship. by destruct (spaceship s) as [[o cs]|]. Qed.

Lemma click_rest s :
  stars (click s) = stars s ∧
  rendererSize (click s) = rendererSize s ∧
  frames (click s) = frames s.
Proof.
  destruct (spaceship s) as [n|] eqn:E.
  - destruct (click_present s n E) as (c & σ' & _ & -> & _). by cbn.
  - by rewrite (click_absent s E).
Qed.

Lemma onLoad_rest g s :
  stars (onLoad g s) = stars s ∧
  rendererSize (onLoad g s) = rendererSize s ∧
  frames (onLoad g s) = frames s ∧
  scene (onLoad g s) = scene s ++ [spaceshipObject] ∧
  console (onLoad g s) =
    console s ++ [console_log "Spaceship loaded and added to the scene" None] ∧
  is_Some (spaceship (onLoad g s)).
Proof.
  destruct g as [o cs]. unfold onLoad.
  destruct (traverse applyShader _ _). by cbn.
Qed.

(** Only an animation frame turns the stars and draws a frame. *)
Lemma step_stars_frames s e s' :
  step s e = Some s' →
  stars s' =
    (if isTick e
     then Object3D.with_rotation
            (Vector3.with_y (Vector3.y (Object3D.rotation (stars s)) + -0.0001)
               (Object3D.rotation (stars s))) (stars s)
     else stars s) ∧
  frames s' = (if isTick e then S (frames s) else frames s).
Proof.
  destruct e; cbn [step isTick]; try (intros [= <-]); try done.
  - destruct (keydown_frame key s) as (f & -> & _).
    by destruct (moveSpaceship_rest f s) as (-> & _ & _ & ->).
  - by destruct (click_rest s) as (-> & _ & ->).
  - destruct (loading s); [|done]. intros [= <-].
    by destruct (onLoad_rest gltf_scene (with_loading false s)) as (-> & _ & -> & _).
  - destruct (loading s); [|done]. by intros [= <-].
Qed.

(** The asteroids after a run are the first ones, each moved once per
    animation frame. *)
Lemma run_asteroids h es s :
  run (initial h) es = Some s →
  asteroids s
    = (λ i, Nat.iter (count isTick es) moveAsteroid (newAsteroid h i)) <$> seq 0 50.
Proof.
  revert es s. apply run_prefix_ind.
  - apply list_fmap_ext. by intros.
  - intros es s e s' _ IH Hstep. rewrite (step_asteroids _ _ _ Hstep), IH, count_snoc.
    destruct (isTick e).
    + rewrite <- list_fmap_compose. apply list_fmap_ext. intros _ i _.
      by rewrite Nat.add_1_r, Nat.iter_succ.
    + by rewrite Nat.add_0_r.
Qed.

Lemma iter_moveAsteroid k a :
  Object3D.rotation (Nat.iter k moveAsteroid a)
    = Vector3.mk (Nat.iter k (λ r, (r + 0.01)%float) (Vector3.x (Object3D.rotation a)))
                 (Nat.iter k (λ r, (r + 0.01)%float) (Vector3.y (Object3D.rotation a)))
                 (Vector3.z (Object3D.rotation a)) ∧
  Vector3.x (Object3D.position (Nat.iter k moveAsteroid a))
    = Vector3.x (Object3D.position a) ∧
  Vector3.y (Object3D.position (Nat.iter k moveAsteroid a))
    = Vector3.y (Object3D.position a) ∧
  Object3D.scale (Nat.iter k moveAsteroid a) = Object3D.scale a ∧
  Object3D.isMesh (Nat.iter k moveAsteroid a) = Object3D.isMesh a ∧
  Object3D.material (Nat.iter k moveAsteroid a) = Object3D.material a.
Proof.
  induction k as [|k (Hr & Hx & Hy & Hs & Hm & Hmat)].
  - by destruct a as [? ? ? [] ?].
  - rewrite Nat.iter_succ.
    destruct (moveAsteroid_xy (Nat.iter k moveAsteroid a)) as [Hx' Hy'].
    split; [|by rewrite Hx', Hy'].
    unfold moveAsteroid at 1. cbn. by rewrite Hr.
Qed.
End Further.

(** * The asteroids, the stars and the renderer over a run *)

(** X1: at any moment every asteroid has turned about x and about y by
    the same angle, 0.01 added once per tick so far, and not at all about
    z. *)
Theorem asteroid_rotation_after_ticks h es s i a :
  run (initial h) es = Some s → asteroids s !! i = Some a →
  Object3D.rotation a
    = Vector3.mk (rotationAfter (count isTick es)) (rotationAfter (count isTick es)) 0.
Proof.
  intros Hrun Ha. rewrite (run_asteroids _ _ _ Hrun), list_lookup_fmap in Ha.
  destruct (seq 0 50 !! i) as [j|]; [|done]. injection Ha as <-.
  by destruct (iter_moveAsteroid (count isTick es) (newAsteroid h j)) as (-> & _).
Qed.

Lemma asteroid_rotation_after_ticks_witness :
  ∃ a, asteroids (animate (keydown "ArrowUp" (animate (initial farHost)))) !! 49 = Some a ∧
       Object3D.rotation a = Vector3.mk (rotationAfter 2) (rotationAfter 2) 0.
Proof.
  assert (run (initial farHost) [AnimationFrame; KeyDown "ArrowUp"; AnimationFrame]
          = Some (animate (keydown "ArrowUp" (animate (initial farHost)))))
    as Hrun by (vm_compute; reflexivity).
  eexists. split; [vm_compute; reflexivity|].
  apply (asteroid_rotation_after_ticks _ _ _ 49 _ Hrun). vm_compute; reflexivity.
Defined.

(** X2: there are always fifty asteroids, and asteroid i is at any moment
    the mesh created from its own three random draws, moved once per tick
    so far: no other event and no other asteroid bears on it, and its
    position.x and position.y are those it was created with. *)
Theorem asteroid_depends_on_its_draws_and_ticks h es s i :
  run (initial h) es = Some s → i < 50 →
  length (asteroids s) = 50 ∧
  ∃ a, asteroids s !! i = Some a ∧
       a = Nat.iter (count isTick es) moveAsteroid (newAsteroid h i) ∧
       Vector3.x (Object3D.position a) = (random h (3 * i) * 50 - 25)%float ∧
       Vector3.y (Object3D.position a) = (random h (3 * i + 1) * 50 - 25)%float ∧
       Object3D.isMesh a = true ∧
       Object3D.material a = otherMaterial.
Proof.
  intros Hrun Hi. split; [by eapply run_asteroids_length|].
  exists (Nat.iter (count isTick es) moveAsteroid (newAsteroid h i)).
  split; [|split; [done|]].
  - rewrite (run_asteroids _ _ _ Hrun), list_lookup_fmap, lookup_seq_lt by done. done.
  - by destruct (iter_moveAsteroid (count isTick es) (newAsteroid h i))
      as (_ & -> & -> & _ & -> & ->).
Qed.

Lemma asteroid_depends_on_its_draws_and_ticks_witness :
  ∃ a, asteroids (animate (click (animate (initial farHost)))) !! 12 = Some a ∧
       Vector3.x (Object3D.position a) = 20%float ∧
       Vector3.y (Object3D.position a) = 20%float.
Proof.
  assert (run (initial farHost) [AnimationFrame; Click; AnimationFrame]
          = Some (animate (click (animate (initial farHost)))))
    as Hrun by (vm_compute; reflexivity).
  destruct (asteroid_depends_on_its_draws_and_ticks _ _ _ 12 Hrun)
    as (_ & a & Ha & _ & Hx & Hy & _); [lia|].
  exists a. split; [exact Ha|]. split; [exact Hx|exact Hy].
Defined.

Lemma decreasing_spec k :
  ∀ r, decreasing k r = true →
  ∀ n, n < k →
    (Nat.iter n (λ r, (r + -0.0001)%float) r + -0.0001
       <? Nat.iter n (λ r, (r + -0.0001)%float) r)%float = true.
Proof.
  induction k as [|k IH]; intros r Hk n Hn; [lia|].
  cbn [decreasing] in Hk. apply andb_prop in Hk as [H0 Hk].
  destruct n as [|n]; [exact H0|].
  rewrite Nat.iter_succ_r. apply IH; [exact Hk|lia].
Qed.

Lemma decreasing_million : decreasing (Z.to_nat 1000000) 0%float = true.
Proof. vm_compute. reflexivity. Qed.

(** X3: the star cloud turns about y only, by -0.0001 per tick, and
    nothing else moves it: after n ticks its rotation is (0, r, 0), r
    being 0 with -0.0001 added n times, and its position is the origin;
    each of the first million ticks makes the angle strictly smaller. *)
Theorem stars_drift_with_ticks h es s :
  run (initial h) es = Some s →
  let n := count isTick es in
  Object3D.rotation (stars s) = Vector3.mk 0 (starsAfter n) 0 ∧
  Object3D.position (stars s) = Vector3.zero ∧
  Object3D.rotation (stars (animate s)) = Vector3.mk 0 (starsAfter n + -0.0001) 0 ∧
  ((Z.of_nat n < 1000000)%Z → (starsAfter n + -0.0001 <? starsAfter n)%float = true).
Proof.
  intros Hrun n.
  assert (Object3D.rotation (stars s) = Vector3.mk 0 (starsAfter n) 0 ∧
          Object3D.position (stars s) = Vector3.zero) as [Hr Hp].
  { subst n. revert es s Hrun. apply run_prefix_ind; [done|].
    intros es s e s' _ [IHr IHp] Hstep. rewrite count_snoc.
    destruct (step_stars_frames _ _ _ Hstep) as [-> _]. destruct (isTick e).
    - cbn. rewrite IHr, Nat.add_1_r. by split.
    - by rewrite Nat.add_0_r. }
  split; [done|]. split; [done|]. split; [cbn; by rewrite Hr|].
  intros Hn. apply (decreasing_spec _ _ decreasing_million). lia.
Qed.

Lemma stars_drift_with_ticks_witness :
  Object3D.rotation (stars (animate (animate (initial exampleHost))))
    = Vector3.mk 0 (-0.0002) 0 ∧
  (starsAfter 2 + -0.0001 <? starsAfter 2)%float = true.
Proof.
  assert (run (initial exampleHost) [AnimationFrame; AnimationFrame]
          = Some (animate (animate (initial exampleHost))))
    as Hrun by (vm_compute; reflexivity).
  destruct (stars_drift_with_ticks _ _ _ Hrun) as (H1 & _ & _ & H4).
  split; [exact H1|]. apply H4. reflexivity.
Defined.

(** X4: the scene is rendered once per tick and by nothing else: the
    number of frames drawn is the number of ticks. *)
Theorem one_frame_per_tick h es s :
  run (initial h) es = Some s → frames s = count isTick es.
Proof.
  revert es s. apply run_prefix_ind; [done|].
  intros es s e s' _ IH Hstep. rewrite count_snoc.
  destruct (step_stars_frames _ _ _ Hstep) as [_ ->].
  destruct (isTick e); lia.
Qed.

Lemma one_frame_per_tick_witness :
  frames (resize 640 480 (animate (click (animate (initial exampleHost))))) = 2.
Proof.
  apply (one_frame_per_tick exampleHost
           [AnimationFrame; Click; AnimationFrame; Resize 640 480]).
  vm_compute; reflexivity.
Defined.

(** * Resizing and the order of events *)

Lemma aspect_followSpaceship ship (c : Camera.t) :
  Camera.aspect (followSpaceship ship c) = Camera.aspect c.
Proof. by destruct ship. Qed.

Lemma step_rendererSize s e s' :
  step s e = Some s' →
  rendererSize s' = match e with Resize w h' => (w, h') | _ => rendererSize s end.
Proof.
  destruct e; cbn [step]; try (intros [= <-]); try done.
  - destruct (keydown_frame key s) as (f & -> & _).
    by destruct (moveSpaceship_rest f s) as (_ & _ & -> & _).
  - by destruct (click_rest s) as (_ & -> & _).
  - destruct (loading s); [|done]. intros [= <-].
    by destruct (onLoad_rest gltf_scene (with_loading false s)) as (_ & -> & _).
  - destruct (loading s); [|done]. by intros [= <-].
Qed.

(** X5: the renderer has the size of the last resize, or of the window
    at start-up if there was none, and the camera's aspect ratio is always
    the width of that size divided by its height: no tick, key or click
    disturbs either. *)
Theorem aspect_matches_renderer_size h es s :
  run (initial h) es = Some s →
  rendererSize s = sizeAfter h es ∧
  Camera.aspect (camera s) = ((sizeAfter h es).1 / (sizeAfter h es).2)%float.
Proof.
  revert es s. apply run_prefix_ind; [done|].
  intros es s e s' _ [IHsize IHaspect] Hstep.
  unfold sizeAfter in *. rewrite foldl_snoc.
  rewrite (step_rendererSize _ _ _ Hstep), (step_camera _ _ _ Hstep).
  destruct e; try done. by rewrite aspect_followSpaceship.
Qed.

Lemma aspect_matches_renderer_size_witness :
  rendererSize (animate (resize 1024 768 (resize 640 480 (animate (initial exampleHost)))))
    = (1024, 768)%float ∧
  Camera.aspect
    (camera (animate (resize 1024 768 (resize 640 480 (animate (initial exampleHost))))))
    = (1024 / 768)%float.
Proof.
  apply (aspect_matches_renderer_size exampleHost
           [AnimationFrame; Resize 640 480; Resize 1024 768; AnimationFrame]).
  vm_compute; reflexivity.
Defined.

(** X6: a resize commutes with a tick, with a key press and with a click:
    whether the window is resized before or after one of them, the state
    is the same. *)
Theorem resize_commutes (width height : Number) (key : string) s :
  resize width height (animate s) = animate (resize width height s) ∧
  resize width height (keydown key s) = keydown key (resize width height s) ∧
  resize width height (click s) = click (resize width height s).
Proof.
  split; [|split].
  - unfold resize, animate. cbn. by destruct (spaceship s).
  - unfold keydown. cbn [spaceship resize with_camera with_rendererSize].
    destruct (spaceship s) as [[o cs]|] eqn:E; [|done].
    repeat (destruct (_ =? _)%string;
            [unfold moveSpaceship; cbn; by rewrite E|]).
    done.
  - unfold click.
    cbn [spaceship materials currentColorIndex resize with_camera with_rendererSize
         with_currentColorIndex].
    destruct (spaceship s); [|done]. destruct (colors !! _); [|done].
    by destruct (traverse _ _ _).
Qed.

(** X7: a vertical and a horizontal key press commute: the spaceship
    ends at the same place whichever comes first. *)
Theorem keys_of_different_axes_commute s :
  keydown "ArrowUp" (keydown "ArrowLeft" s) = keydown "ArrowLeft" (keydown "ArrowUp" s) ∧
  keydown "ArrowUp" (keydown "ArrowRight" s) = keydown "ArrowRight" (keydown "ArrowUp" s) ∧
  keydown "ArrowDown" (keydown "ArrowLeft" s) = keydown "ArrowLeft" (keydown "ArrowDown" s) ∧
  keydown "ArrowDown" (keydown "ArrowRight" s)
    = keydown "ArrowRight" (keydown "ArrowDown" s).
Proof.
  unfold keydown, moveSpaceship.
  destruct (spaceship s) as [[o cs]|] eqn:E; cbn; rewrite ?E; by repeat split.
Qed.

(** * The spaceship and its materials after the load *)

Section AfterLoad.
Implicit Types (s : State) (n g ship : Node) (o : Object3D.t) (σ : Store) (e : Event)
  (es : list Event) (h : Host).

Lemma lookup_advanceTime_ne σ a :
  a ≠ spaceshipShaderMaterial → advanceTime σ !! a = σ !! a.
Proof.
  intros Ha. unfold advanceTime. destruct (σ !! spaceshipShaderMaterial); [|done].
  by apply list_lookup_insert_ne.
Qed.

Lemma present_not_loading s ship :
  wellFormed s → spaceship s = Some ship → loading s = false.
Proof.
  intros (_ & _ & Hl & _) Hship. destruct (loading s); [|done].
  specialize (Hl eq_refl). congruence.
Qed.

(** Once the spaceship is present, an event changes of it at most the
    position of its root, and of that position not the depth. *)
Lemma step_ship s e s' o cs :
  wellFormed s → spaceship s = Some (node o cs) → step s e = Some s' →
  ∃ p, spaceship s' = Some (node (Object3D.with_position p o) cs) ∧
       Vector3.z p = Vector3.z (Object3D.position o).
Proof.
  intros Hwf Hship Hstep.
  pose proof (present_not_loading _ _ Hwf Hship) as Hl.
  assert (Some (node o cs)
          = Some (node (Object3D.with_position (Object3D.position o) o) cs)) as Hid
    by by destruct o.
  destruct e; cbn [step] in Hstep; rewrite ?Hl in Hstep; try done;
    injection Hstep as <-.
  - exists (Object3D.position o). by rewrite spaceship_animate, Hship.
  - destruct (keydown_frame key s) as (f & -> & Hf). exists (f (Object3D.position o)).
    unfold moveSpaceship. by rewrite Hship.
  - exists (Object3D.position o).
    destruct (click_frame s) as (_ & _ & -> & _). by rewrite Hship.
  - exists (Object3D.position o). by cbn; rewrite Hship.
Qed.

(** Once the spaceship is present, the store keeps its size; a click
    paints the materials of the meshes with the palette colour of the new
    index, and any other event leaves every material but
    [spaceshipShaderMaterial] as it is. *)
Lemma step_store s e s' ship :
  wellFormed s → spaceship s = Some ship → step s e = Some s' →
  length (materials s') = length (materials s) ∧
  (isClick e = false →
   ∀ a, a ≠ spaceshipShaderMaterial → materials s' !! a = materials s !! a) ∧
  (isClick e = true →
   ∃ c, colors !! currentColorIndex s' = Some c ∧
        ∀ a, shaderMaterialAt a ∈ Object3D.material <$> meshes ship →
             materials s' !! a = painted c <$> materials s !! a).
Proof.
  intros Hwf Hship Hstep.
  pose proof (present_not_loading _ _ Hwf Hship) as Hl.
  destruct e; cbn [step] in Hstep; rewrite ?Hl in Hstep; try done;
    injection Hstep as <-; cbn [isClick].
  - rewrite materials_animate, length_advanceTime. split; [done|]. split; [|done].
    intros _ a Ha. by apply lookup_advanceTime_ne.
  - destruct (keydown_frame key s) as (f & -> & _).
    destruct (moveSpaceship_frame f s) as (-> & _). by repeat split.
  - destruct (click_present s ship Hship) as (c & σ' & Hc & -> & Hlen & Hlk).
    cbn [materials currentColorIndex with_console with_materials with_currentColorIndex].
    split; [done|]. split; [done|]. intros _. exists c. split; [done|].
    intros a Ha. by rewrite Hlk, decide_True.
  - by repeat split.
Qed.

(** A property of the mesh materials that a click keeps is kept by every
    event. *)
Lemma everyMeshMaterial_step (P : ShaderMaterial.t → Prop) s e s' :
  (isClick e = true → ∀ c m, P m → P (painted c m)) →
  wellFormed s → step s e = Some s' →
  everyMeshMaterial P s → everyMeshMaterial P s'.
Proof.
  intros HP Hwf Hstep ([o cs] & Hship & Hall).
  destruct (step_ship _ _ _ _ _ Hwf Hship Hstep) as (p & Hship' & _).
  destruct (step_store _ _ _ _ Hwf Hship Hstep) as (_ & Hother & Hclick).
  exists (node (Object3D.with_position p o) cs). split; [done|].
  rewrite meshes_moved. rewrite Forall_forall in Hall. apply Forall_forall.
  intros r Hr. destruct (Hall r Hr) as (a & m & -> & Hm & HPm).
  destruct (isClick e) eqn:He.
  - destruct (Hclick eq_refl) as (c & _ & Hlk).
    exists a, (painted c m). split; [done|]. rewrite (Hlk a Hr), Hm. split; [done|].
    by apply HP.
  - exists a, m. split; [done|]. split; [|done]. rewrite Hother; [done|done|].
    intros ->. by apply (not_template_mesh s (node o cs)).
Qed.

Lemma everyMeshMaterial_run (P : ShaderMaterial.t → Prop) es :
  (∀ c m, P m → P (painted c m)) →
  ∀ s s', wellFormed s → run s es = Some s' →
          everyMeshMaterial P s → everyMeshMaterial P s'.
Proof.
  intros HP. induction es as [|e es IH]; intros s s' Hwf.
  - by intros [= <-].
  - intros (s1 & Hstep & Hrun)%run_cons HPs.
    apply (IH s1); [by eapply wellFormed_step|done|].
    eapply everyMeshMaterial_step; eauto.
Qed.

(** A click with the spaceship present leaves every mesh material with
    the palette colour of the new index and its uniforms marked. *)
Lemma everyMeshMaterial_click s s' :
  wellFormed s → is_Some (spaceship s) → step s Click = Some s' →
  ∃ c, colors !! currentColorIndex s' = Some c ∧
       everyMeshMaterial
         (λ m, ShaderMaterial.color m = c ∧ ShaderMaterial.uniformsNeedUpdate m = true) s'.
Proof.
  intros Hwf [[o cs] Hship] Hstep.
  destruct (step_ship _ _ _ _ _ Hwf Hship Hstep) as (p & Hship' & _).
  destruct (step_store _ _ _ _ Hwf Hship Hstep) as (Hlen & _ & Hclick).
  destruct (Hclick eq_refl) as (c & Hc & Hlk). exists c. split; [done|].
  exists (node (Object3D.with_position p o) cs). split; [done|].
  rewrite meshes_moved. apply Forall_forall. intros r Hr.
  destruct Hwf as (_ & _ & _ & Hn). specialize (Hn _ Hship).
  rewrite Forall_forall in Hn. destruct (Hn r Hr) as (a & -> & _ & Hlt).
  destruct (lookup_lt_is_Some_2 _ _ Hlt) as [m Hm].
  exists a, (painted c m). by rewrite (Hlk a Hr), Hm.
Qed.

(** A run through a successful load, cut at the load. *)
Lemma run_through_load h es1 g es2 s :
  run (initial h) (es1 ++ Loaded g :: es2) = Some s →
  ∃ s0, run (initial h) es1 = Some s0 ∧ loading s0 = true ∧ wellFormed s0 ∧
        spaceship s0 = None ∧
        run (onLoad g (with_loading false s0)) es2 = Some s ∧
        wellFormed (onLoad g (with_loading false s0)).
Proof.
  rewrite run_app. destruct (run (initial h) es1) as [s0|] eqn:Hrun0; [|done].
  cbn [mbind option_bind]. intros (s1 & Hstep & Hrun)%run_cons.
  pose proof (wellFormed_run _ _ _ Hrun0) as Hwf0.
  cbn [step] in Hstep. destruct (loading s0) eqn:Hl; [|done]. injection Hstep as <-.
  exists s0. do 3 (split; [done|]). split; [|split; [done|]].
  - destruct Hwf0 as (_ & _ & Hn & _). by apply Hn.
  - by apply wellFormed_onLoad.
Qed.
End AfterLoad.

Lemma run_present s es s' :
  wellFormed s → is_Some (spaceship s) → run s es = Some s' →
  wellFormed s' ∧ is_Some (spaceship s').
Proof.
  revert s. induction es as [|e es IH]; intros s Hwf Hship.
  - by intros [= <-].
  - intros (s1 & Hstep & Hrun)%run_cons. apply (IH s1); [by eapply wellFormed_step| |done].
    destruct Hship as [[o cs] Hship].
    by destruct (step_ship _ _ _ _ _ Hwf Hship Hstep) as (p & -> & _).
Qed.

Lemma everyMeshMaterial_impl (P Q : ShaderMaterial.t → Prop) s :
  (∀ m, P m → Q m) → everyMeshMaterial P s → everyMeshMaterial Q s.
Proof.
  intros HPQ (ship & Hship & Hall). exists ship. split; [done|].
  eapply Forall_impl; [exact Hall|]. intros r (a & m & Hr & Hm & HP).
  exists a, m. auto.
Qed.

(** When a click handler returns after the load, every mesh material has
    the palette colour of the new index and its uniforms marked. *)
Lemma run_clicked h es1 g es2 s :
  run (initial h) (es1 ++ Loaded g :: es2 ++ [Click]) = Some s →
  ∃ c, colors !! currentColorIndex s = Some c ∧
       everyMeshMaterial
         (λ m, ShaderMaterial.color m = c ∧ ShaderMaterial.uniformsNeedUpdate m = true) s.
Proof.
  intros (s0 & _ & _ & _ & _ & Hrun & Hwf1)%run_through_load.
  assert (is_Some (spaceship (onLoad g (with_loading false s0)))) as Hship1
    by by destruct (onLoad_rest g (with_loading false s0)) as (_ & _ & _ & _ & _ & ?).
  apply run_snoc in Hrun as (s2 & Hrun & Hstep).
  destruct (run_present _ _ _ Hwf1 Hship1 Hrun) as [Hwf2 Hship2].
  by apply (everyMeshMaterial_click s2).
Qed.

(** After the load and a click, every mesh material has the palette
    colour of the current index. *)
Lemma run_painted h es1 g es2 s :
  run (initial h) (es1 ++ Loaded g :: es2) = Some s →
  0 < count isClick es2 →
  ∃ c, colors !! currentColorIndex s = Some c ∧
       everyMeshMaterial (λ m, ShaderMaterial.color m = c) s.
Proof.
  intros (s0 & _ & _ & _ & _ & Hrun & Hwf1)%run_through_load.
  assert (is_Some (spaceship (onLoad g (with_loading false s0)))) as Hship1
    by by destruct (onLoad_rest g (with_loading false s0)) as (_ & _ & _ & _ & _ & ?).
  revert Hwf1 Hship1 s Hrun. generalize (onLoad g (with_loading false s0)).
  intros s1 Hwf1 Hship1.
  induction es2 as [|e es2 IH] using rev_ind; intros s Hrun Hcount.
  { change (count isClick []) with 0 in Hcount. lia. }
  apply run_snoc in Hrun as (s2 & Hrun & Hstep). rewrite count_snoc in Hcount.
  destruct (run_present _ _ _ Hwf1 Hship1 Hrun) as [Hwf2 Hship2].
  destruct (isClick e) eqn:He.
  - destruct e; try done.
    destruct (everyMeshMaterial_click s2 s Hwf2 Hship2 Hstep) as (c & Hc & Hall).
    exists c. split; [done|].
    eapply everyMeshMaterial_impl; [|exact Hall]. by intros m [? _].
  - destruct (IH s2 Hrun) as (c & Hc & Hall); [lia|].
    exists c. split.
    + by rewrite (step_currentColorIndex _ _ _ Hstep), He.
    + eapply everyMeshMaterial_step; [|done|done|done]. by rewrite He.
Qed.


(** X8: once the spaceship is loaded and a click has followed, the
    displayed colour is in step with the palette: the colour uniform of
    every mesh is the palette colour of the current index, whatever
    events came after the click; and when a click handler returns, it
    has marked the uniforms of each of these materials for update. *)
Theorem meshes_show_the_palette_colour h es1 g es2 s :
  run (initial h) (es1 ++ Loaded g :: es2) = Some s →
  0 < count isClick es2 →
  ∃ c, colors !! currentColorIndex s = Some c ∧
       everyMeshMaterial (λ m, ShaderMaterial.color m = c) s ∧
       (∀ es, es2 = es ++ [Click] →
          everyMeshMaterial (λ m, ShaderMaterial.uniformsNeedUpdate m = true) s).
Proof.
  intros Hrun Hcount. destruct (run_painted _ _ _ _ _ Hrun Hcount) as (c & Hc & Hall).
  exists c. split; [done|]. split; [done|]. intros es ->.
  destruct (run_clicked _ _ _ _ _ Hrun) as (c' & _ & Hall').
  eapply everyMeshMaterial_impl; [|exact Hall']. by intros m [_ ?].
Qed.

Lemma meshes_show_the_palette_colour_witness :
  ∃ c, colors !! currentColorIndex (animate (click (click (click loadedState))))
         = Some c ∧
       everyMeshMaterial (λ m, ShaderMaterial.color m = c)
         (animate (click (click (click loadedState)))).
Proof.
  destruct (meshes_show_the_palette_colour exampleHost [AnimationFrame] exampleModel
              [Click; Click; Click; AnimationFrame]
              (animate (click (click (click loadedState)))))
    as (c & Hc & Hall & _).
  - vm_compute; reflexivity.
  - vm_compute; lia.
  - exists c. split; [exact Hc|exact Hall].
Defined.

(** X9: the clone a mesh gets at the load carries the time uniform that
    [spaceshipShaderMaterial] had at that moment, and keeps it: the ticks
    after the load advance the time of [spaceshipShaderMaterial] and of no
    mesh material. *)
Theorem mesh_clocks_stop_at_the_load h es1 g es2 s :
  run (initial h) (es1 ++ Loaded g :: es2) = Some s →
  everyMeshMaterial
    (λ m, ShaderMaterial.time m = timeAfter (count isTick es1) ∧
          ShaderMaterial.needsUpdate m = true) s ∧
  timeUniform s = Some (timeAfter (count isTick es1 + count isTick es2)).
Proof.
  intros Hrun. split.
  - apply run_through_load in Hrun as (s0 & Hrun0 & _ & Hwf0 & _ & Hrun & Hwf1).
    eapply (everyMeshMaterial_run _ es2); [|exact Hwf1|exact Hrun|]; [by intros c m [? ?]|].
    pose proof (run_timeUniform _ _ _ Hrun0) as Ht. unfold timeUniform in Ht.
    destruct Hwf0 as ((m0 & Hm0 & _) & _). rewrite Hm0 in Ht. injection Ht as Ht.
    destruct (onLoad_spec (with_loading false s0) g m0 Hm0)
      as (ship & -> & _ & _ & _ & Hmat).
    exists ship. split; [done|]. rewrite Hmat. apply Forall_forall.
    intros r (a & -> & Ha%elem_of_seq)%list_elem_of_fmap.
    cbn [materials with_console with_materials with_loading] in *.
    exists a, (ShaderMaterial.with_needsUpdate true (ShaderMaterial.clone m0)).
    split; [done|]. split; [|done].
    rewrite lookup_app_r by lia. by rewrite lookup_replicate_2 by lia.
  - rewrite (run_timeUniform _ _ _ Hrun), count_app, count_cons. done.
Qed.

Lemma mesh_clocks_stop_at_the_load_witness :
  everyMeshMaterial
    (λ m, ShaderMaterial.time m = 1.05%float ∧ ShaderMaterial.needsUpdate m = true)
    (animate (animate loadedState)) ∧
  timeUniform (animate (animate loadedState)) = Some (timeAfter 3).
Proof.
  apply (mesh_clocks_stop_at_the_load exampleHost [AnimationFrame] exampleModel
           [AnimationFrame; AnimationFrame]).
  vm_compute; reflexivity.
Defined.

(** X10: [spaceshipShaderMaterial] itself is never recoloured and never
    marked: at any moment its colour is the silver 0xc0c0c0, its two flags
    are unset, and its time is 1.0 with 0.05 added once per tick. *)
Theorem template_material_is_never_painted h es s :
  run (initial h) es = Some s →
  materials s !! spaceshipShaderMaterial
    = Some (ShaderMaterial.mk (timeAfter (count isTick es)) (Color.mk 0xc0c0c0)
              false false).
Proof.
  revert es s. apply run_prefix_ind; [done|].
  intros es s e s' Hrun IH Hstep. pose proof (wellFormed_run _ _ _ Hrun) as Hwf.
  rewrite count_snoc.
  destruct e; cbn [step isTick] in *; rewrite ?Nat.add_0_r.
  - injection Hstep as <-. rewrite materials_animate, (advanceTime_spec _ _ IH).
    rewrite list_lookup_insert_eq by (by eapply lookup_lt_Some).
    by rewrite Nat.add_1_r.
  - injection Hstep as <-. destruct (keydown_frame key s) as (f & -> & _).
    by destruct (moveSpaceship_frame f s) as (-> & _).
  - injection Hstep as <-. destruct (spaceship s) as [ship|] eqn:E.
    + destruct (click_present s ship E) as (c & σ' & _ & -> & _ & Hlk).
      cbn [materials with_console with_materials]. rewrite Hlk, decide_False; [done|].
      by apply (not_template_mesh s).
    + by rewrite (click_absent s E).
  - by injection Hstep as <-.
  - destruct (loading s); [|done]. injection Hstep as <-.
    destruct (onLoad_spec (with_loading false s) gltf_scene _ IH) as (ship & -> & _).
    cbn [materials with_console with_materials with_loading].
    rewrite lookup_app_l; [done|]. by eapply lookup_lt_Some.
  - destruct (loading s); [|done]. by injection Hstep as <-.
Qed.

Lemma template_material_is_never_painted_witness :
  materials (click (click (animate loadedState))) !! spaceshipShaderMaterial
    = Some (ShaderMaterial.mk (timeAfter 2) (Color.mk 0xc0c0c0) false false).
Proof.
  apply (template_material_is_never_painted exampleHost
           [AnimationFrame; Loaded exampleModel; AnimationFrame; Click; Click]).
  vm_compute; reflexivity.
Defined.

(** * The store, the scene and the console over a run *)

Lemma step_absent s e s' :
  spaceship s = None → step s e = Some s' → isLoadOutcome e = false →
  spaceship s' = None ∧ materials s' = (if isTick e then advanceTime (materials s)
                                          else materials s) ∧
  scene s' = scene s ∧ console s' = console s.
Proof.
  intros Hs Hstep He. destruct e; try done; cbn [step isTick] in *; injection Hstep as <-.
  - by rewrite spaceship_animate.
  - by rewrite (keydown_absent key s Hs).
  - by rewrite (click_absent s Hs).
  - done.
Qed.

(** X11: the store never holds a material that no object uses, and no
    two meshes share one: at any moment it holds [spaceshipShaderMaterial]
    at address 0 and, once the spaceship is loaded, one material per mesh,
    the k-th mesh in visiting order having the material at address k;
    ticks, keys and clicks allocate nothing. *)
Theorem store_has_one_material_per_mesh h es s :
  run (initial h) es = Some s →
  match spaceship s with
  | None => length (materials s) = 1
  | Some ship =>
      length (materials s) = 1 + length (meshes ship) ∧
      Object3D.material <$> meshes ship
        = shaderMaterialAt <$> seq 1 (length (meshes ship))
  end.
Proof.
  revert es s. apply run_prefix_ind; [done|].
  intros es s e s' Hrun IH Hstep. pose proof (wellFormed_run _ _ _ Hrun) as Hwf.
  destruct (spaceship s) as [[o cs]|] eqn:Hship.
  - destruct (step_ship _ _ _ _ _ Hwf Hship Hstep) as (p & -> & _).
    destruct (step_store _ _ _ _ Hwf Hship Hstep) as (-> & _).
    assert (length (meshes (node (Object3D.with_position p o) cs))
            = length (meshes (node o cs))) as Hlen.
    { rewrite <- (length_fmap Object3D.material), meshes_moved. apply length_fmap. }
    by rewrite meshes_moved, Hlen.
  - destruct (isLoadOutcome e) eqn:He.
    + destruct e; try done; cbn [step] in Hstep;
        (destruct (loading s); [|done]); injection Hstep as <-;
        [|by cbn; rewrite Hship].
      destruct Hwf as ((m0 & Hm0 & _) & _).
      destruct (onLoad_spec (with_loading false s) gltf_scene m0 Hm0)
        as (ship & -> & _ & _ & _ & Hmat).
      cbn [spaceship materials with_console with_materials with_spaceship with_loading]
        in *.
      assert (length (meshes ship) = length (meshes gltf_scene)) as Hlen.
      { by rewrite <- (length_fmap Object3D.material), Hmat, length_fmap, length_seq. }
      rewrite length_app, length_replicate, IH, Hlen. split; [done|].
      by rewrite Hmat, IH.
    + destruct (step_absent _ _ _ Hship Hstep He) as (-> & -> & _).
      destruct (isTick e); by rewrite ?length_advanceTime.
Qed.

Lemma store_has_one_material_per_mesh_witness :
  ∃ ship, spaceship (click (animate (click loadedState))) = Some ship ∧
          length (materials (click (animate (click loadedState)))) = 3 ∧
          Object3D.material <$> meshes ship = [shaderMaterialAt 1; shaderMaterialAt 2].
Proof.
  assert (run (initial exampleHost)
            [AnimationFrame; Loaded exampleModel; Click; AnimationFrame; Click]
          = Some (click (animate (click loadedState))))
    as Hrun by (vm_compute; reflexivity).
  pose proof (store_has_one_material_per_mesh _ _ _ Hrun) as H.
  destruct (spaceship (click (animate (click loadedState)))) as [ship|] eqn:E.
  - exists ship. split; [reflexivity|]. destruct H as [H1 H2].
    assert (length (meshes ship) = 2) as Hk.
    { vm_compute in E. injection E as <-. reflexivity. }
    rewrite Hk in H1, H2. split; [exact H1|exact H2].
  - vm_compute in E. discriminate E.
Defined.

Lemma step_scene s e s' :
  step s e = Some s' →
  scene s' = match e with Loaded _ => scene s ++ [spaceshipObject] | _ => scene s end.
Proof.
  destruct e; cbn [step]; try (intros [= <-]); try done.
  - destruct (keydown_frame key s) as (f & -> & _).
    by destruct (moveSpaceship_frame f s) as (_ & _ & _ & _ & -> & _).
  - by destruct (click_frame s) as (_ & _ & _ & -> & _).
  - destruct (loading s); [|done]. intros [= <-].
    by destruct (onLoad_rest gltf_scene (with_loading false s)) as (_ & _ & _ & -> & _).
  - destruct (loading s); [|done]. by intros [= <-].
Qed.

(** X12: nothing is ever removed from the scene and nothing is added to
    it but the spaceship, once: the scene holds the three lights, the
    fifty asteroids and the stars, followed by the spaceship exactly when
    the spaceship is present, and holds no object twice. *)
Theorem scene_gains_only_the_spaceship h es s :
  run (initial h) es = Some s →
  scene s = scene (initial h)
              ++ match spaceship s with Some _ => [spaceshipObject] | None => [] end ∧
  length (scene (initial h)) = 54 ∧
  NoDup (scene s).
Proof.
  intros Hrun.
  assert (scene s = scene (initial h)
                      ++ match spaceship s with Some _ => [spaceshipObject] | None => [] end)
    as Hscene.
  { revert es s Hrun. apply run_prefix_ind; [by rewrite app_nil_r|].
    intros es s e s' Hrun IH Hstep. pose proof (wellFormed_run _ _ _ Hrun) as Hwf.
    rewrite (step_scene _ _ _ Hstep).
    destruct (spaceship s) as [[o cs]|] eqn:Hship.
    - destruct (step_ship _ _ _ _ _ Hwf Hship Hstep) as (p & -> & _).
      pose proof (present_not_loading _ _ Hwf Hship) as Hl.
      destruct e; try done. cbn [step] in Hstep. by rewrite Hl in Hstep.
    - destruct e; try (by destruct (step_absent _ _ _ Hship Hstep eq_refl) as (-> & _)).
      + cbn [step] in Hstep. destruct (loading s); [|done]. injection Hstep as <-.
        destruct (onLoad_rest gltf_scene (with_loading false s))
          as (_ & _ & _ & _ & _ & [ship ->]).
        by rewrite IH, app_nil_r.
      + cbn [step] in Hstep. destruct (loading s); [|done]. injection Hstep as <-.
        cbn. by rewrite Hship. }
  split; [done|]. split; [done|]. rewrite Hscene.
  destruct (spaceship s); apply (bool_decide_unpack _); vm_compute; reflexivity.
Qed.

Lemma scene_gains_only_the_spaceship_witness :
  length (scene (click (animate loadedState))) = 55 ∧
  NoDup (scene (click (animate loadedState))).
Proof.
  assert (run (initial exampleHost)
            [AnimationFrame; Loaded exampleModel; AnimationFrame; Click]
          = Some (click (animate loadedState)))
    as Hrun by (vm_compute; reflexivity).
  destruct (scene_gains_only_the_spaceship _ _ _ Hrun) as (H1 & _ & H3).
  split; [|exact H3]. rewrite H1. vm_compute. reflexivity.
Defined.

Lemma step_console_present s e s' ship :
  wellFormed s → spaceship s = Some ship → step s e = Some s' →
  console s' = console s ∧ isClick e = false ∨
  ∃ c, c ∈ colors ∧ isClick e = true ∧
       console s' = console s ++ [console_log "Spaceship color changed to: " (Some c)].
Proof.
  intros Hwf Hship Hstep. pose proof (present_not_loading _ _ Hwf Hship) as Hl.
  destruct e; cbn [step] in Hstep; rewrite ?Hl in Hstep; try done;
    injection Hstep as <-.
  - by left.
  - left. destruct (keydown_frame key s) as (f & -> & _).
    by destruct (moveSpaceship_rest f s) as (_ & -> & _).
  - right. destruct (click_present s ship Hship) as (c & σ' & Hc & -> & _).
    exists c. split; [by eapply list_elem_of_lookup_2|done].
  - by left.
Qed.

(** X13: what reaches the console.  Until the loader answers, nothing:
    clicks before the load are silent.  After a failed load, the error and
    nothing ever after.  After a successful load, the message of the load
    followed by one message per later click, each naming a palette
    colour. *)
Theorem console_tells_the_load_and_the_clicks h es s :
  run (initial h) es = Some s →
  (count isLoadOutcome es = 0 → console s = []) ∧
  (∀ es1 err es2, es = es1 ++ LoadFailed err :: es2 →
     console s = [console_error "Error loading spaceship:" err]) ∧
  (∀ es1 g es2, es = es1 ++ Loaded g :: es2 →
     ∃ entries,
       console s = console_log "Spaceship loaded and added to the scene" None :: entries ∧
       length entries = count isClick es2 ∧
       Forall (λ entry, ∃ c, c ∈ colors ∧
                 entry = console_log "Spaceship color changed to: " (Some c)) entries).
Proof.
  intros Hrun.
  assert (∀ es s, run (initial h) es = Some s → count isLoadOutcome es = 0 →
                  console s = [] ∧ spaceship s = None ∧ loading s = true) as Hquiet.
  { clear. apply (run_prefix_ind h (λ es s, count isLoadOutcome es = 0 → _)); [done|].
    intros es s e s' Hrun IH Hstep. rewrite count_snoc. intros Hcount.
    destruct (isLoadOutcome e) eqn:He; [lia|].
    destruct IH as (Hc & Hs & Hl); [lia|].
    destruct (step_absent _ _ _ Hs Hstep He) as (-> & _ & _ & ->).
    by rewrite (step_loading _ _ _ Hstep), He. }
  split; [|split].
  - intros Hcount. by destruct (Hquiet _ _ Hrun Hcount).
  - intros es1 err es2 ->. rewrite run_app in Hrun.
    destruct (run (initial h) es1) as [s0|] eqn:Hrun0; [|done].
    cbn [mbind option_bind] in Hrun. apply run_cons in Hrun as (s1 & Hstep & Hrun).
    cbn [step] in Hstep. destruct (loading s0) eqn:Hl0; [|done]. injection Hstep as <-.
    destruct (run_loading _ _ _ Hrun0) as [_ Hb]. rewrite Hl0 in Hb.
    symmetry in Hb. apply bool_decide_eq_true in Hb.
    destruct (Hquiet _ _ Hrun0 Hb) as (Hc0 & Hs0 & _).
    assert (∀ es s1 s, loading s1 = false → spaceship s1 = None →
                       run s1 es = Some s → console s = console s1) as Hinert.
    { clear. induction es as [|e es IH]; intros s1 s Hl Hs; [by intros [= <-]|].
      intros (s2 & Hstep & Hrun)%run_cons.
      assert (isLoadOutcome e = false) as He.
      { destruct e; try done; cbn [step] in Hstep; by rewrite Hl in Hstep. }
      destruct (step_absent _ _ _ Hs Hstep He) as (Hs2 & _ & _ & <-).
      apply (IH s2); [|done|done]. by rewrite (step_loading _ _ _ Hstep), He. }
    rewrite (Hinert es2 (onError err (with_loading false s0)) s eq_refl Hs0 Hrun).
    cbn. by rewrite Hc0.
  - intros es1 g es2 ->.
    apply run_through_load in Hrun as (s0 & Hrun0 & Hl0 & _ & _ & Hrun & Hwf1).
    destruct (run_loading _ _ _ Hrun0) as [_ Hb]. rewrite Hl0 in Hb.
    symmetry in Hb. apply bool_decide_eq_true in Hb.
    destruct (Hquiet _ _ Hrun0 Hb) as (Hc0 & _).
    destruct (onLoad_rest g (with_loading false s0)) as (_ & _ & _ & _ & Hc1 & Hship1).
    cbn [console with_loading] in Hc1. rewrite Hc0 in Hc1. cbn [app] in Hc1.
    revert Hwf1 Hship1 Hc1 s Hrun. generalize (onLoad g (with_loading false s0)).
    intros s1 Hwf1 Hship1 Hc1.
    induction es2 as [|e es2 IH] using rev_ind; intros s Hrun.
    { injection Hrun as <-. exists []. by rewrite Hc1. }
    apply run_snoc in Hrun as (s2 & Hrun & Hstep).
    destruct (IH s2 Hrun) as (entries & Hc & Hlen & Hall).
    destruct (run_present _ _ _ Hwf1 Hship1 Hrun) as [Hwf2 [ship2 Hship2]].
    rewrite count_snoc.
    destruct (step_console_present _ _ _ _ Hwf2 Hship2 Hstep)
      as [[-> ->]|(c & Hcol & -> & ->)].
    + exists entries. rewrite Nat.add_0_r. done.
    + exists (entries ++ [console_log "Spaceship color changed to: " (Some c)]).
      rewrite Hc, length_app, Hlen. split; [done|]. split; [done|].
      apply Forall_app. split; [done|]. constructor; [|done]. by exists c.
Qed.

Lemma console_tells_the_load_and_the_clicks_witness :
  console (click (keydown "ArrowUp" (click (start exampleHost)))) = [] ∧
  console (click (animate (onError "404" (with_loading false (click (start exampleHost))))))
    = [console_error "Error loading spaceship:" "404"] ∧
  length (console (click (animate (click loadedState)))) = 3.
Proof.
  assert (run (initial exampleHost) [AnimationFrame; Click; KeyDown "ArrowUp"; Click]
          = Some (click (keydown "ArrowUp" (click (start exampleHost)))))
    as Hquiet by (vm_compute; reflexivity).
  assert (run (initial exampleHost)
            ([AnimationFrame; Click] ++ LoadFailed "404" :: [AnimationFrame; Click])
          = Some (click (animate (onError "404"
                                    (with_loading false (click (start exampleHost)))))))
    as Hfail by (vm_compute; reflexivity).
  assert (run (initial exampleHost)
            ([AnimationFrame] ++ Loaded exampleModel :: [Click; AnimationFrame; Click])
          = Some (click (animate (click loadedState))))
    as Hload by (vm_compute; reflexivity).
  split; [|split].
  - apply (proj1 (console_tells_the_load_and_the_clicks _ _ _ Hquiet)). reflexivity.
  - exact (proj1 (proj2 (console_tells_the_load_and_the_clicks _ _ _ Hfail))
             _ _ _ eq_refl).
  - destruct (proj2 (proj2 (console_tells_the_load_and_the_clicks _ _ _ Hload))
                _ _ _ eq_refl) as (entries & -> & Hlen & _).
    cbn [length]. rewrite Hlen. reflexivity.
Defined.

(** * The camera and the subtree of the spaceship over a run *)

(** X14: the camera never leaves depth 10, and whenever it has been
    pointed, it is still where it was when it was pointed, 10 in front of
    its target, which is at depth 0; it is pointed only once the spaceship
    is present. *)
Theorem camera_stays_at_depth_10 h es s :
  run (initial h) es = Some s →
  Vector3.z (Camera.position (camera s)) = 10%float ∧
  ∀ eye target, Camera.lookAt (camera s) = Some (eye, target) →
    Camera.position (camera s) = eye ∧
    eye = Vector3.mk (Vector3.x target) (Vector3.y target) 10 ∧
    Vector3.z target = 0%float ∧
    is_Some (spaceship s).
Proof.
  revert es s. apply run_prefix_ind; [done|].
  intros es s e s' Hrun [IHz IHl] Hstep.
  pose proof (wellFormed_run _ _ _ Hrun) as Hwf.
  assert (is_Some (spaceship s) → is_Some (spaceship s')) as Hkeep.
  { intros [ship Hship]. destruct (spaceship s') eqn:E; [done|].
    rewrite (step_spaceship_absent _ _ _ Hwf Hstep E) in Hship. done. }
  assert (∀ c, Camera.position c = Camera.position (camera s) →
               Camera.lookAt c = Camera.lookAt (camera s) →
               Vector3.z (Camera.position c) = 10%float ∧
               ∀ eye target, Camera.lookAt c = Some (eye, target) →
                 Camera.position c = eye ∧
                 eye = Vector3.mk (Vector3.x target) (Vector3.y target) 10 ∧
                 Vector3.z target = 0%float ∧
                 is_Some (spaceship s')) as Hsame.
  { intros c -> ->. split; [done|]. intros eye target Hlook.
    destruct (IHl eye target Hlook) as (? & ? & ? & ?). auto. }
  rewrite (step_camera _ _ _ Hstep). destruct e; try by apply Hsame.
  destruct (spaceship s) as [ship|] eqn:Hship; [|by apply Hsame].
  pose proof (run_spaceship_depth _ _ _ _ Hrun Hship) as Hz.
  cbn. rewrite Hz. split; [done|]. intros eye target [= <- <-].
  rewrite Hz. split; [done|]. split; [done|]. split; [done|].
  cbn [step] in Hstep. injection Hstep as <-. by rewrite spaceship_animate, Hship.
Qed.

Lemma camera_stays_at_depth_10_witness :
  Vector3.z (Camera.position
               (camera (keydown "ArrowUp" (animate (keydown "ArrowRight" loadedState)))))
    = 10%float ∧
  Camera.lookAt (camera (keydown "ArrowUp" (animate (keydown "ArrowRight" loadedState))))
    = Some (Vector3.mk 0.5 0 10, Vector3.mk 0.5 0 0).
Proof.
  assert (run (initial exampleHost)
            [AnimationFrame; Loaded exampleModel; KeyDown "ArrowRight"; AnimationFrame;
             KeyDown "ArrowUp"]
          = Some (keydown "ArrowUp" (animate (keydown "ArrowRight" loadedState))))
    as Hrun by (vm_compute; reflexivity).
  split; [exact (proj1 (camera_stays_at_depth_10 _ _ _ Hrun))|].
  vm_compute; reflexivity.
Defined.

Lemma run_ship s es s' o cs :
  wellFormed s → spaceship s = Some (node o cs) → run s es = Some s' →
  ∃ p, spaceship s' = Some (node (Object3D.with_position p o) cs) ∧
       Vector3.z p = Vector3.z (Object3D.position o).
Proof.
  revert s o. induction es as [|e es IH]; intros s o Hwf Hship.
  - intros [= <-]. exists (Object3D.position o). split; [|done].
    rewrite Hship. by destruct o.
  - intros (s1 & Hstep & Hrun)%run_cons.
    destruct (step_ship _ _ _ _ _ Hwf Hship Hstep) as (p & Hship1 & Hp).
    destruct (IH s1 _ (wellFormed_step _ _ _ Hwf Hstep) Hship1 Hrun) as (p' & Hship' & Hp').
    exists p'. split; [exact Hship'|]. by rewrite Hp'.
Qed.

(** X15: after the load nothing of the spaceship changes but the
    position of its root, and of that position only x and y: the children,
    the materials the meshes point to, the rotation and the scale (2, 2, 2)
    of the root are those of the moment of the load, and the depth of the
    root is 0. *)
Theorem spaceship_subtree_is_fixed h es1 g es2 s :
  run (initial h) (es1 ++ Loaded g :: es2) = Some s →
  ∃ s1 o cs p,
    run (initial h) (es1 ++ [Loaded g]) = Some s1 ∧
    spaceship s1 = Some (node o cs) ∧
    Object3D.scale o = Vector3.mk 2 2 2 ∧
    spaceship s = Some (node (Object3D.with_position p o) cs) ∧
    Vector3.z p = 0%float.
Proof.
  intros Hrun. pose proof Hrun as (s0 & Hrun0 & Hl0 & Hwf0 & _ & Hrun1 & Hwf1)%run_through_load.
  pose proof Hwf0 as ((m0 & Hm0 & _) & _).
  destruct (onLoad_spec (with_loading false s0) g m0 Hm0)
    as ([o cs] & Hs1 & Hscale & Hpos & _).
  assert (spaceship (onLoad g (with_loading false s0)) = Some (node o cs)) as Hship1
    by by rewrite Hs1.
  destruct (run_ship _ _ _ _ _ Hwf1 Hship1 Hrun1) as (p & Hship & Hp).
  exists (onLoad g (with_loading false s0)), o, cs, p.
  split; [|split; [done|split; [done|split; [done|]]]].
  - apply run_snoc. exists s0. split; [done|]. cbn [step]. by rewrite Hl0.
  - cbn [self_of] in Hpos. by rewrite Hp, Hpos.
Qed.

Lemma spaceship_subtree_is_fixed_witness :
  ∃ o cs p,
    spaceship loadedState = Some (node o cs) ∧
    spaceship (click (keydown "ArrowLeft" (animate loadedState)))
      = Some (node (Object3D.with_position p o) cs) ∧
    Vector3.z p = 0%float.
Proof.
  assert (run (initial exampleHost)
            ([AnimationFrame] ++ Loaded exampleModel
               :: [AnimationFrame; KeyDown "ArrowLeft"; Click])
          = Some (click (keydown "ArrowLeft" (animate loadedState))))
    as Hrun by (vm_compute; reflexivity).
  destruct (spaceship_subtree_is_fixed _ _ _ _ _ Hrun)
    as (s1 & o & cs & p & Hrun1 & Hs1 & _ & Hs & Hp).
  assert (s1 = loadedState) as -> by (vm_compute in Hrun1; by injection Hrun1).
  by exists o, cs, p.
Defined.

(** X16: the load touches nothing of the model but the scale and the
    position of its root and the materials of its meshes: every object of
    the subtree keeps its mesh flag, its rotation and, the root apart, its
    position and scale, and an object that is not a mesh keeps its
    material; the asteroids, the stars, the camera and the palette index
    are as before. *)
Theorem load_keeps_the_model_otherwise h es s o cs :
  run (initial h) es = Some s → loading s = true →
  ∃ s' ship,
    step s (Loaded (node o cs)) = Some s' ∧
    spaceship s' = Some ship ∧
    Forall2 sameButMaterial
      (objects (node (Object3D.with_position (Vector3.mk 0 0 0)
                        (Object3D.with_scale (Vector3.mk 2 2 2) o)) cs))
      (objects ship) ∧
    asteroids s' = asteroids s ∧ stars s' = stars s ∧ camera s' = camera s ∧
    currentColorIndex s' = currentColorIndex s.
Proof.
  intros Hrun Hl. pose proof (wellFormed_run _ _ _ Hrun) as ((m0 & Hm0 & _) & _).
  exists (onLoad (node o cs) (with_loading false s)).
  destruct (onLoad_frame (node o cs) (with_loading false s)) as (Ha & Hc & Hi & _).
  destruct (onLoad_rest (node o cs) (with_loading false s)) as (Hst & _).
  set (o2 := Object3D.with_position (Vector3.mk 0 0 0)
               (Object3D.with_scale (Vector3.mk 2 2 2) o)).
  destruct (traverse_applyShader m0 (node o2 cs) (materials s) Hm0)
    as (ship & Ht & Hsame & _).
  exists ship. split; [by cbn [step]; rewrite Hl|]. split; [|by split].
  unfold onLoad. cbn [materials with_scene with_loading].
  change (Object3D.with_position _ (Object3D.with_scale _ o)) with o2.
  by rewrite Ht.
Qed.

Lemma load_keeps_the_model_otherwise_witness :
  ∃ s' ship,
    step (start exampleHost) (Loaded exampleModel) = Some s' ∧
    spaceship s' = Some ship ∧
    length (objects ship) = 4 ∧
    asteroids s' = asteroids (start exampleHost).
Proof.
  assert (run (initial exampleHost) [AnimationFrame] = Some (start exampleHost))
    as Hrun by reflexivity.
  destruct (load_keeps_the_model_otherwise _ _ _ Object3D.Group
              [node (Object3D.Mesh otherMaterial) [];
               node (Object3D.Mesh otherMaterial) [node Object3D.Group []]]
              Hrun eq_refl)
    as (s' & ship & Hs' & Hship & Hsame & Ha & _).
  exists s', ship. split; [exact Hs'|]. split; [exact Hship|]. split; [|exact Ha].
  apply Forall2_length in Hsame. rewrite <- Hsame. reflexivity.
Defined.

(** * The palette cycle *)

Lemma colorUniform_everyMesh s ship o (P : ShaderMaterial.t → Prop) :
  everyMeshMaterial P s → spaceship s = Some ship → o ∈ meshes ship →
  ∃ m, colorUniform (materials s) o = Some (ShaderMaterial.color m) ∧ P m.
Proof.
  intros (ship' & Hship' & Hall) Hship Ho. assert (ship' = ship) as -> by congruence.
  rewrite Forall_forall in Hall.
  destruct (Hall (Object3D.material o)) as (a & m & Ha & Hm & HP).
  { by apply list_elem_of_fmap_2. }
  exists m. unfold colorUniform. by rewrite Ha, Hm.
Qed.

(** X18: once the spaceship is loaded and a click has followed, three
    more clicks bring everything shown back: the palette index and the
    colour uniform of every mesh are what they were. *)
Theorem three_clicks_restore_the_colours h es1 g es2 s :
  run (initial h) (es1 ++ Loaded g :: es2) = Some s →
  0 < count isClick es2 →
  currentColorIndex (click (click (click s))) = currentColorIndex s ∧
  ∀ ship o, spaceship s = Some ship → o ∈ meshes ship →
    colorUniform (materials (click (click (click s)))) o = colorUniform (materials s) o.
Proof.
  intros Hrun Hcount.
  assert (currentColorIndex (click (click (click s))) = currentColorIndex s) as Hidx.
  { pose proof (wellFormed_run _ _ _ Hrun) as (_ & Hi & _).
    destruct (click_frame (click (click s))) as (_ & _ & _ & _ & _ & ->).
    destruct (click_frame (click s)) as (_ & _ & _ & _ & _ & ->).
    destruct (click_frame s) as (_ & _ & _ & _ & _ & ->).
    change (length colors) with 3 in Hi.
    by destruct (currentColorIndex s) as [|[|[|i]]]; [..|lia]. }
  split; [done|]. intros ship o Hship Ho.
  assert (run (initial h) (es1 ++ Loaded g :: (es2 ++ [Click; Click; Click]))
          = Some (click (click (click s)))) as Hrun3.
  { rewrite app_comm_cons, app_assoc, run_app, Hrun. done. }
  destruct (run_painted _ _ _ _ _ Hrun Hcount) as (c & Hc & Hall).
  destruct (run_painted _ _ _ _ _ Hrun3) as (c3 & Hc3 & Hall3).
  { rewrite count_app. lia. }
  rewrite Hidx, Hc in Hc3. injection Hc3 as <-.
  destruct (colorUniform_everyMesh _ _ _ _ Hall Hship Ho) as (m & -> & <-).
  assert (spaceship (click (click (click s))) = Some ship) as Hship3.
  { destruct (click_frame (click (click s))) as (_ & _ & -> & _).
    destruct (click_frame (click s)) as (_ & _ & -> & _).
    by destruct (click_frame s) as (_ & _ & -> & _). }
  destruct (colorUniform_everyMesh _ _ _ _ Hall3 Hship3 Ho) as (m3 & -> & ->).
  done.
Qed.

Lemma three_clicks_restore_the_colours_witness :
  currentColorIndex (click (click (click (click loadedState))))
    = currentColorIndex (click loadedState) ∧
  ∀ ship o, spaceship (click loadedState) = Some ship → o ∈ meshes ship →
    colorUniform (materials (click (click (click (click loadedState))))) o
      = colorUniform (materials (click loadedState)) o.
Proof.
  apply (three_clicks_restore_the_colours exampleHost [AnimationFrame] exampleModel [Click]).
  - vm_compute; reflexivity.
  - vm_compute; lia.
Defined.
